(** * Report extraction of [backend/app/services/gemini_service.py]

    A shallow embedding of [extract_section], [parse_analysis_result] and
    [extract_sections_from_content], together with the report-type check of
    [analyze_diagram], and the properties of the specification that concern
    them.

    Text is a list of characters.  A character is one of the 256 values of
    [ascii], read as the Unicode code points U+0000 to U+00FF; the
    character classes of Python ([str.isspace], [str.isupper], [str.lower],
    and the classes of [re]) are written out for that range.  A Python
    [dict] is an association list in insertion order, because
    [extract_section] iterates over [sections.keys()]. *)

From Stdlib Require Import Ascii String DecimalString Bool Arith List Lia.
Import ListNotations.

Set Implicit Arguments.

(** ** Characters and strings *)

Definition str := list ascii.

(** String literals are written [L "..."]. *)
Definition L (s : string) : str := list_ascii_of_string s.

Definition code (c : ascii) : nat := nat_of_ascii c.

Definition between (lo hi : nat) (c : ascii) : bool :=
  (lo <=? code c) && (code c <=? hi).

Definition nl : ascii := ascii_of_nat 10.

Definition is_nl (c : ascii) : bool := Ascii.eqb c nl.

(** [str.isspace] on one character, which is also the class [\s] of [re]
    for [str] patterns: U+0009-000D, U+001C-0020, U+0085, U+00A0. *)
Definition isspace (c : ascii) : bool :=
  between 9 13 c || between 28 32 c || (code c =? 133) || (code c =? 160).

(** The class [[A-Z]]. *)
Definition is_AZ (c : ascii) : bool := between 65 90 c.

(** The class [\d]: the decimal digits below U+0100 are [0-9]. *)
Definition is_digit (c : ascii) : bool := between 48 57 c.

(** Uppercase and lowercase characters below U+0100.  There is no
    titlecase character in that range. *)
Definition char_isupper (c : ascii) : bool :=
  between 65 90 c || between 192 214 c || between 216 222 c.

Definition char_islower (c : ascii) : bool :=
  between 97 122 c || (code c =? 170) || (code c =? 181) || (code c =? 186)
  || between 223 246 c || between 248 255 c.

(** [str.lower] on one character: every uppercase character below U+0100
    has its lowercase form 32 code points above it. *)
Definition char_lower (c : ascii) : ascii :=
  if char_isupper c then ascii_of_nat (code c + 32) else c.

Definition lower (s : str) : str := map char_lower s.

(** [s.isupper()]: at least one cased character and none of them lowercase. *)
Definition isupper (s : str) : bool :=
  existsb char_isupper s && negb (existsb char_islower s).

Fixpoint str_eqb (a b : str) : bool :=
  match a, b with
  | [], [] => true
  | x :: a', y :: b' => Ascii.eqb x y && str_eqb a' b'
  | _, _ => false
  end.

Fixpoint drop_while (p : ascii -> bool) (s : str) : str :=
  match s with
  | [] => []
  | c :: s' => if p c then drop_while p s' else s
  end.

(** [s.strip()] *)
Definition lstrip (s : str) : str := drop_while isspace s.
Definition rstrip (s : str) : str := rev (drop_while isspace (rev s)).
Definition strip (s : str) : str := rstrip (lstrip s).

(** [text.split('\n')] *)
Fixpoint split_lines (s : str) : list str :=
  match s with
  | [] => [[]]
  | c :: s' =>
      if is_nl c then [] :: split_lines s'
      else match split_lines s' with
           | l :: ls => (c :: l) :: ls
           | [] => [[c]]
           end
  end.

(** ['\n'.join(lines)] *)
Fixpoint join_lines (ls : list str) : str :=
  match ls with
  | [] => []
  | [l] => l
  | l :: ls' => l ++ nl :: join_lines ls'
  end.

Fixpoint is_prefix (p s : str) : bool :=
  match p, s with
  | [], _ => true
  | x :: p', y :: s' => Ascii.eqb x y && is_prefix p' s'
  | _ :: _, [] => false
  end.

(** [key in section_key] for strings: [key] occurs as a substring. *)
Fixpoint is_substring (p s : str) : bool :=
  is_prefix p s ||
  match s with
  | [] => false
  | _ :: s' => is_substring p s'
  end.

(** [s.replace(' ', '_')] *)
Definition space : ascii := ascii_of_nat 32.
Definition underscore : ascii := ascii_of_nat 95.

Definition replace_space (s : str) : str :=
  map (fun c => if Ascii.eqb c space then underscore else c) s.

(** [str(n)] for a natural number. *)
Definition str_of_nat (n : nat) : str :=
  L (NilZero.string_of_uint (Nat.to_uint n)).

(** ** Dictionaries *)

Definition dict (V : Type) := list (str * V).

(** [d[k] = v]: an existing key keeps its place, a new one goes last. *)
Fixpoint dict_set {V} (d : dict V) (k : str) (v : V) : dict V :=
  match d with
  | [] => [(k, v)]
  | (k', v') :: d' =>
      if str_eqb k k' then (k', v) :: d' else (k', v') :: dict_set d' k v
  end.

Fixpoint dict_get {V} (d : dict V) (k : str) : option V :=
  match d with
  | [] => None
  | (k', v') :: d' => if str_eqb k k' then Some v' else dict_get d' k
  end.

Definition keys {V} (d : dict V) : list str := map fst d.
Definition values {V} (d : dict V) : list V := map snd d.

(** ** The heading patterns of [parse_analysis_result] *)

Definition hash : ascii := ascii_of_nat 35.
Definition colon : ascii := ascii_of_nat 58.
Definition dot : ascii := ascii_of_nat 46.

Definition is_hash (c : ascii) : bool := Ascii.eqb c hash.

(** The match of [^#+\s+] at the start of [s]: what is left of [s] after
    the match, if there is one.  Both repetitions are greedy and the two
    classes are disjoint, so the match is the longest run of [#] followed
    by the longest run of white space. *)
Definition after_markdown (s : str) : option str :=
  match s with
  | c :: _ =>
      if is_hash c then
        match drop_while is_hash s with
        | d :: r => if isspace d then Some (drop_while isspace r) else None
        | [] => None
        end
      else None
  | [] => None
  end.

(** [^[A-Z][A-Z\s]+:] *)
Definition is_AZ_or_space (c : ascii) : bool := is_AZ c || isspace c.

Definition match_caps (s : str) : bool :=
  match s with
  | c :: d :: r =>
      is_AZ c && is_AZ_or_space d &&
      match drop_while is_AZ_or_space r with
      | e :: _ => Ascii.eqb e colon
      | [] => false
      end
  | _ => false
  end.

(** [^\d+\.\s+[A-Z]] *)
Definition match_numbered (s : str) : bool :=
  match s with
  | c :: r =>
      is_digit c &&
      match drop_while is_digit r with
      | p :: q :: r' =>
          Ascii.eqb p dot && isspace q &&
          match drop_while isspace r' with
          | e :: _ => is_AZ e
          | [] => false
          end
      | _ => false
      end
  | [] => false
  end.

(** The alternation of common section names, in the order of the pattern. *)
Definition common_section_names : list str :=
  map L [ "ARCHITECTURE"; "COMPONENTS"; "RELIABILITY"; "SCALABILITY";
          "SECURITY"; "OBSERVABILITY"; "PERFORMANCE"; "OPERATIONAL";
          "RECOMMENDATIONS"; "DEPENDENCY"; "STEADY STATE"; "HYPOTHESIS";
          "EXPERIMENT"; "RUMSFELD"; "TEST CASE"; "BLAST RADIUS"; "COVERAGE";
          "EXECUTIVE SUMMARY"; "APPLICATION OVERVIEW"; "REQUIREMENTS";
          "RISK"; "INCIDENT"; "ROADMAP" ]%string.

Definition match_common (s : str) : bool :=
  existsb (fun w => is_prefix w s) common_section_names.

(** [heading_regex.match(line)] *)
Definition heading_regex_match (line : str) : bool :=
  match after_markdown line with Some _ => true | None => false end
  || match_caps line || match_numbered line || match_common line.

(** The test of the loop:
    [heading_regex.match(line) or (line.strip().isupper() and len(line.strip()) > 3)] *)
Definition is_heading (line : str) : bool :=
  heading_regex_match line
  || (isupper (strip line) && (3 <? length (strip line))).

(** [re.sub(r'^#+\s+', '', s)] *)
Definition sub_markdown (s : str) : str :=
  match after_markdown s with Some r => r | None => s end.

(** [re.sub(r':$', '', s)] on a string without a line break. *)
Definition sub_trailing_colon (s : str) : str :=
  match rev s with
  | c :: r => if Ascii.eqb c colon then rev r else s
  | [] => s
  end.

(** The name computed from a heading line, before the test for emptiness. *)
Definition normalize (line : str) : str :=
  replace_space (sub_trailing_colon (sub_markdown (lower (strip line)))).

(** The name given to a heading line when the dictionary has [n] entries. *)
Definition section_name (line : str) (n : nat) : str :=
  match normalize line with
  | [] => L "section_" ++ str_of_nat n
  | name => name
  end.

(** ** The line loop of [parse_analysis_result] *)

Record seg_state := mk_seg {
  sections : dict str;
  current_section : str;
  current_content : list str
}.

Definition initial_state : seg_state :=
  mk_seg [] (L "overview") [].

(** [if current_content: sections[current_section] = '\n'.join(current_content)] *)
Definition save_section (st : seg_state) : dict str :=
  match current_content st with
  | [] => sections st
  | _ :: _ =>
      dict_set (sections st) (current_section st) (join_lines (current_content st))
  end.

(** One turn of [for i, line in enumerate(lines)]. *)
Definition seg_step (st : seg_state) (line : str) : seg_state :=
  if is_heading line then
    let saved := save_section st in
    mk_seg saved (section_name line (length saved)) []
  else
    mk_seg (sections st) (current_section st) (current_content st ++ [line]).

Definition run_lines (st : seg_state) (lines : list str) : seg_state :=
  fold_left seg_step lines st.

(** The dictionary after the loop and the saving of the last section. *)
Definition segment_lines (lines : list str) : dict str :=
  save_section (run_lines initial_state lines).

(** The dictionary [sections] at line 728 of the source: the loop over
    [text.split('\n')], then [sections["full_text"] = text] when nothing
    was found. *)
Definition line_sections (text : str) : dict str :=
  match segment_lines (split_lines text) with
  | [] => [(L "full_text", text)]
  | d => d
  end.

(** ** [extract_section] *)

Fixpoint first_section_with (key : str) (d : dict str) : option str :=
  match d with
  | [] => None
  | (section_key, body) :: d' =>
      if is_substring key section_key then Some body
      else first_section_with key d'
  end.

Fixpoint extract_section (d : dict str) (possible_keys : list str) : str :=
  match possible_keys with
  | [] => []
  | key :: rest =>
      match first_section_with key d with
      | Some body => body
      | None => extract_section d rest
      end
  end.

(** ** [extract_sections_from_content] *)

Definition system_analysis_keywords : list str :=
  map L [ "architecture"; "components"; "reliability"; "scalability";
          "security"; "observability"; "performance"; "operational";
          "recommendations" ]%string.

Definition destructive_testing_keywords : list str :=
  map L [ "dependency"; "dependencies"; "steady state"; "hypothesis";
          "experiment"; "rumsfeld"; "test case"; "blast radius";
          "coverage" ]%string.

Definition prr_keywords : list str :=
  map L [ "executive summary"; "application overview";
          "reliability requirements"; "risk assessment";
          "observability strategy"; "destructive testing";
          "incident response"; "reliability roadmap" ]%string.

Definition all_keywords : list str :=
  system_analysis_keywords ++ destructive_testing_keywords ++ prr_keywords.

(** A literal character [k] of a pattern compiled with [re.IGNORECASE]
    against the character [c] of the text. *)
Definition ci_char (k c : ascii) : bool :=
  Ascii.eqb (char_lower c) (char_lower k).

Fixpoint ci_prefix (kw s : str) : bool :=
  match kw, s with
  | [], _ => true
  | k :: kw', c :: s' => ci_char k c && ci_prefix kw' s'
  | _ :: _, [] => false
  end.

Fixpoint index_nl (s : str) : option nat :=
  match s with
  | [] => None
  | c :: s' =>
      if is_nl c then Some 0
      else match index_nl s' with Some j => Some (S j) | None => None end
  end.

(** The pattern [(kw:?)[^\n]*\n] tried at the start of [s]: the length of
    the match.  The keyword has to be there, in any case, and a line break
    has to follow somewhere; the match ends after the first one. *)
Definition match_keyword_line (kw s : str) : option nat :=
  if ci_prefix kw s then
    match index_nl (skipn (length kw) s) with
    | Some j => Some (length kw + j + 1)
    | None => None
    end
  else None.

(** [pattern.finditer(text)]: the matches from left to right, without
    overlap, as pairs (start, end).  [skip] characters of [s] are still
    covered by the last match. *)
Fixpoint finditer_from (kw s : str) (pos skip : nat) : list (nat * nat) :=
  match s with
  | [] => []
  | _ :: s' =>
      match skip with
      | S k => finditer_from kw s' (S pos) k
      | O =>
          match match_keyword_line kw s with
          | Some len => (pos, pos + len) :: finditer_from kw s' (S pos) (len - 1)
          | None => finditer_from kw s' (S pos) 0
          end
      end
  end.

Definition finditer (kw text : str) : list (nat * nat) :=
  finditer_from kw text 0 0.

(** [next_pattern.search(text, start_pos)]: the start of the first match
    at or after [start_pos]. *)
Fixpoint search_from (kw s : str) (pos : nat) : option nat :=
  match s with
  | [] => None
  | _ :: s' =>
      match match_keyword_line kw s with
      | Some _ => Some pos
      | None => search_from kw s' (S pos)
      end
  end.

Definition search (kw text : str) (start_pos : nat) : option nat :=
  search_from kw (skipn start_pos text) start_pos.

(** The inner loop over [next_keyword]: the start of the nearest match of
    any keyword from [start_pos] on, or the length of the text. *)
Definition section_end (text : str) (start_pos : nat) : nat :=
  fold_left
    (fun end_pos next_keyword =>
       match search next_keyword text start_pos with
       | Some p => if p <? end_pos then p else end_pos
       | None => end_pos
       end)
    all_keywords (length text).

(** [text[i:j]] for [i <= j <= len(text)] *)
Definition slice (text : str) (i j : nat) : str :=
  firstn (j - i) (skipn i text).

(** [keyword.lower().replace(" ", "_")] *)
Definition keyword_key (kw : str) : str := replace_space (lower kw).

Definition add_keyword_sections (text : str) (d : dict str) (keyword : str)
  : dict str :=
  fold_left
    (fun d m =>
       let start_pos := snd m in
       let end_pos := section_end text start_pos in
       dict_set d (keyword_key keyword) (strip (slice text start_pos end_pos)))
    (finditer keyword text) d.

Definition extract_sections_from_content (text : str) : dict str :=
  fold_left (add_keyword_sections text) all_keywords [].

(** ** [parse_analysis_result] *)

(** The members of [AnalysisType(str, Enum)] are strings, and a tag is
    compared with them by [==]. *)
Definition SYSTEM_ANALYSIS : str := L "system_analysis".
Definition DESTRUCTIVE_TESTING : str := L "destructive_testing".
Definition PRR : str := L "prr".

(** The fields of each branch in the order of the dictionary literal, each
    with the [possible_keys] handed to [extract_section]. *)
Definition schema := list (str * list str).

Definition mk_schema (l : list (string * list string)) : schema :=
  map (fun p => (L (fst p), map L (snd p))) l.

Definition system_analysis_schema : schema := mk_schema
  [ ("components", ["components"; "architecture_component"; "component_analysis"; "architecture"]);
    ("reliability", ["reliability"; "reliability_assessment"; "spof"; "single_points_of_failure"]);
    ("scalability", ["scalability"; "scalability_analysis"; "scaling"]);
    ("security", ["security"; "security_evaluation"; "authentication"; "authorization"]);
    ("observability", ["observability"; "observability_assessment"; "monitoring"; "logging"]);
    ("performance", ["performance"; "performance_considerations"; "latency"; "throughput"]);
    ("operational_complexity", ["operational_complexity"; "operations"; "deployment"; "maintenance"]);
    ("recommendations", ["recommendations"; "improvements"; "suggested"; "enhancement"]) ]%string.

Definition destructive_testing_schema : schema := mk_schema
  [ ("dependency_analysis", ["dependency_analysis"; "dependencies"; "interconnections"]);
    ("steady_state_definition", ["steady_state_definition"; "steady_state"; "sli"; "slo"]);
    ("hypothesis_generation", ["hypothesis_generation"; "hypotheses"; "hypothesis"]);
    ("experiment_design", ["experiment_design"; "experiments"; "test_cases"; "chaos_testing"]);
    ("rumsfeld_matrix", ["rumsfeld_matrix"; "known_unknowns"; "unknown_unknowns"]);
    ("test_case_management", ["test_case_management"; "test_cases"; "litmus_chaos"]);
    ("blast_radius_analysis", ["blast_radius_analysis"; "blast_radius"; "impact_scope"]);
    ("coverage", ["coverage"; "complete_coverage"; "test_coverage"]) ]%string.

Definition prr_schema : schema := mk_schema
  [ ("executive_summary", ["executive_summary"; "summary"; "overview"]);
    ("application_overview", ["application_overview"; "application"; "overview"]);
    ("reliability_requirements", ["reliability_requirements"; "requirements"; "slo"; "availability"]);
    ("risk_assessment", ["risk_assessment"; "risks"; "vulnerabilities"; "spof"]);
    ("observability_strategy", ["observability_strategy"; "observability"; "monitoring"; "logging"]);
    ("destructive_testing_results", ["destructive_testing_results"; "testing_results"; "chaos_testing"]);
    ("incident_response", ["incident_response"; "response"; "escalation"; "runbook"]);
    ("reliability_roadmap", ["reliability_roadmap"; "roadmap"; "improvements"]) ]%string.

(** The chain [if ... elif ... elif ... else] over [analysis_type]. *)
Definition schema_of (analysis_type : str) : option schema :=
  if str_eqb analysis_type SYSTEM_ANALYSIS then Some system_analysis_schema
  else if str_eqb analysis_type DESTRUCTIVE_TESTING then Some destructive_testing_schema
  else if str_eqb analysis_type PRR then Some prr_schema
  else None.

(** The first dictionary literal of a branch. *)
Definition extract_fields (sch : schema) (d : dict str) : dict str :=
  map (fun p => (fst p, extract_section d (snd p))) sch.

(** The second dictionary literal of a branch: the text in the first field. *)
Definition raw_text_fields (sch : schema) (text : str) : dict str :=
  match sch with
  | [] => []
  | p :: rest => (fst p, text) :: map (fun q => (fst q, [])) rest
  end.

(** [any(structured_data.values())]: some value is a non-empty string. *)
Definition any_value (d : dict str) : bool :=
  existsb (fun v => match v with [] => false | _ :: _ => true end) (values d).

Definition structured_fields (sch : schema) (d : dict str) (text : str)
  : dict str :=
  let structured_data := extract_fields sch d in
  if any_value structured_data then structured_data
  else raw_text_fields sch text.

(** The values of the returned dictionary: strings, and the dictionary of
    sections. *)
Inductive pyval :=
| VStr (s : str)
| VDict (d : dict str).

Inductive exn :=
| ValueError (msg : str).

(** A call either returns or raises. *)
Inductive outcome (A : Type) :=
| Returns (a : A)
| Raises (e : exn).

Arguments Returns {A} a.
Arguments Raises {A} e.

Definition as_values (d : dict str) : dict pyval :=
  map (fun p => (fst p, VStr (snd p))) d.

(** [if len(sections) <= 1: sections = extract_sections_from_content(text)],
    the first statement of each of the three branches. *)
Definition mapped_sections (text : str) (sections : dict str) : dict str :=
  if length sections <=? 1 then extract_sections_from_content text
  else sections.

Definition parse_analysis_result (text : str) (analysis_type : str)
  : outcome (dict pyval) :=
  match text with
  | [] => Returns [(L "text", VStr (L "No analysis data available"))]
  | _ :: _ =>
      let sections := line_sections text in
      match schema_of analysis_type with
      | Some sch =>
          let sections := mapped_sections text sections in
          Returns (dict_set (as_values (structured_fields sch sections text))
                            (L "sections") (VDict sections))
      | None =>
          Returns (dict_set [(L "text", VStr text)]
                            (L "sections") (VDict sections))
      end
  end.

(** ** The report-type check of [analyze_diagram]

    [analyze_diagram] opens the image, chooses the prompt by the chain
    [if ... elif ... elif ... else] over [analysis_type], calls the remote
    model and parses its answer.  The chain raises [ValueError] for a tag
    that is none of the three report types. *)
Inductive prompt :=
| SYSTEM_ANALYSIS_PROMPT
| DESTRUCTIVE_TESTING_PROMPT
| PRR_PROMPT.

Definition select_prompt (analysis_type : str) : outcome prompt :=
  if str_eqb analysis_type SYSTEM_ANALYSIS then Returns SYSTEM_ANALYSIS_PROMPT
  else if str_eqb analysis_type DESTRUCTIVE_TESTING then Returns DESTRUCTIVE_TESTING_PROMPT
  else if str_eqb analysis_type PRR then Returns PRR_PROMPT
  else Raises (ValueError (L "Unsupported analysis type: " ++ analysis_type)).

(** The dictionary [{"raw_text": ..., "structured_data": ...}]. *)
Record analysis := mk_analysis {
  raw_text : str;
  structured_data : dict pyval
}.

(** ** Measures and traces used by the statements *)

(** [len(body.split('\n'))]: the number of lines of a body. *)
Definition line_count (body : str) : nat := length (split_lines body).

(** The lines held by all the bodies of a dictionary. *)
Definition body_lines (d : dict str) : nat :=
  list_sum (map (fun p => line_count (snd p)) d).

Definition heading_count (text : str) : nat :=
  length (filter is_heading (split_lines text)).

Definition line_total (text : str) : nat := length (split_lines text).

(** The assignment [sections[current_section] = ...] that [save_section]
    performs in state [st], if any. *)
Definition pending (st : seg_state) : list (str * str) :=
  match current_content st with
  | [] => []
  | _ :: _ => [(current_section st, join_lines (current_content st))]
  end.

(** All the assignments to [sections] made from state [st] on, in order:
    one at each heading that follows some content, and the last one. *)
Fixpoint saves_from (st : seg_state) (lines : list str) : list (str * str) :=
  match lines with
  | [] => pending st
  | line :: rest =>
      (if is_heading line then pending st else [])
      ++ saves_from (seg_step st line) rest
  end.

(** The names under which the loop saves a body, with repetitions. *)
Definition saved_names (text : str) : list str :=
  map fst (saves_from initial_state (split_lines text)).

Definition set_all (d : dict str) (ws : list (str * str)) : dict str :=
  fold_left (fun d w => dict_set d (fst w) (snd w)) ws d.

(** A line holds no line break, as every element of [text.split('\n')]. *)
Definition nl_free (line : str) : Prop := ~ In nl line.

Definition no_heading (lines : list str) : Prop :=
  Forall (fun line => is_heading line = false) lines.

(** Nothing, or a block of lines that opens with a heading. *)
Definition opens_with_heading (lines : list str) : Prop :=
  match lines with
  | [] => True
  | line :: _ => is_heading line = true
  end.

(** No heading of [lines] can take the name [n], whatever the size of the
    dictionary when it is met. *)
Definition name_unused (n : str) (lines : list str) : Prop :=
  forall line k, In line lines -> is_heading line = true ->
                 section_name line k <> n.

(** Two dictionaries with the same keys in the same order that agree
    everywhere but, possibly, at the key [k], which they hold. *)
Definition differ_at (k : str) (d d' : dict str) : Prop :=
  In k (keys d) /\ exists v, d' = dict_set d k v.

(** Two states of the loop that differ at most in the body stored under [k]. *)
Definition similar (k : str) (st st' : seg_state) : Prop :=
  current_section st = current_section st' /\
  current_content st = current_content st' /\
  differ_at k (sections st) (sections st').

Definition overview : str := L "overview".

(** The canonical fields of the three report types. *)
Definition all_fields : list str :=
  map fst system_analysis_schema ++ map fst destructive_testing_schema
  ++ map fst prr_schema.

(** No possible key of the schema occurs in the name of a section. *)
Definition no_synonym_matches (sch : schema) (d : dict str) : Prop :=
  forall field possible_keys key name,
    In (field, possible_keys) sch -> In key possible_keys ->
    In name (keys d) -> is_substring key name = false.

Fixpoint nodupb (l : list str) : bool :=
  match l with
  | [] => true
  | x :: l' => negb (existsb (str_eqb x) l') && nodupb l'
  end.

(** The check of [no_synonym_matches] by computation. *)
Definition no_synonym_matchesb (sch : schema) (d : dict str) : bool :=
  forallb (fun p =>
             forallb (fun key =>
                        forallb (fun name => negb (is_substring key name))
                                (keys d))
                     (snd p))
          sch.

(** Some line of the text starts with the keyword, in any case. *)
Definition keyword_starts_a_line (kw text : str) : bool :=
  existsb (ci_prefix kw) (split_lines text).

(** The keyword is at position [p] of the text, in any case, and the
    text has a line break after it. *)
Definition keyword_occurs_at (kw text : str) (p : nat) : Prop :=
  ci_prefix kw (skipn p text) = true /\ In nl (skipn (p + length kw) text).

(** From a key back to the keyword: underscores become spaces. *)
Definition key_keyword (key : str) : str :=
  map (fun c => if Ascii.eqb c underscore then space else c) key.

(** A word: no white space in it. *)
Definition word (w : str) : Prop := Forall (fun c => isspace c = false) w.

(** The end of a heading line, with or without the colon. *)
Definition colon_if (b : bool) : str := if b then [colon] else [].

(** The normalisation as the specification words it: leading marker
    characters and one trailing colon stripped, lower case, each run of
    white space inside replaced by a single underscore. *)
Fixpoint collapse_from (in_run : bool) (s : str) : str :=
  match s with
  | [] => []
  | c :: s' =>
      if isspace c then
        if in_run then collapse_from true s'
        else underscore :: collapse_from true s'
      else c :: collapse_from false s'
  end.

Definition spec_normalize (line : str) : str :=
  collapse_from false
    (lower (sub_trailing_colon (strip (drop_while is_hash (strip line))))).

(** ** Further notions used by the statements *)

(** [s] is a contiguous piece of [text]. *)
Definition piece_of (s text : str) : Prop :=
  exists before after, text = before ++ s ++ after.

(** A name as the line loop produces them: not empty, without a space
    and without a letter of [[A-Z]]. *)
Definition tidy_name (name : str) : Prop :=
  name <> [] /\ ~ In space name /\ Forall (fun c => is_AZ c = false) name.

(** ** [analyze_diagram] and [analyze_diagram_all] with their surroundings

    Above the parser a call can fail for reasons outside the program: the
    image does not open, the remote model does not answer, a file cannot
    be decoded.  Such a failure is [ExternalError], with the text that
    [str(e)] gives.  [HTTPException] is the exception of the web layer; it
    derives from [Exception], so [except Exception] catches it. *)
Inductive raised :=
| Error (e : exn)
| ExternalError (message : str)
| HTTPException (status_code : nat) (detail : str).

Inductive attempt (A : Type) :=
| Value (a : A)
| Raise (r : raised).

Arguments Value {A} a.
Arguments Raise {A} r.

Definition and_then {A B} (m : attempt A) (f : A -> attempt B) : attempt B :=
  match m with
  | Value a => f a
  | Raise r => Raise r
  end.

Definition lift {A} (o : outcome A) : attempt A :=
  match o with
  | Returns a => Value a
  | Raises e => Raise (Error e)
  end.

(** [str(e)].  What [str] gives for an [HTTPException] depends on the
    version of the web framework: it is the parameter [http_str]. *)
Definition str_of_raised (http_str : nat -> str -> str) (r : raised) : str :=
  match r with
  | Error (ValueError msg) => msg
  | ExternalError message => message
  | HTTPException status_code detail => http_str status_code detail
  end.

(** [analyze_diagram(file_path, analysis_type, description)].  [opens] is
    what [Image.open(file_path)] does and [generate] what
    [model.generate_content] does for the chosen prompt.  The handler
    [except Exception as e: logger.error(...); raise] passes every failure
    on unchanged. *)
Definition analyze_diagram_io (opens : attempt unit)
    (generate : prompt -> attempt str) (analysis_type : str)
  : attempt analysis :=
  and_then opens (fun _ =>
  and_then (lift (select_prompt analysis_type)) (fun chosen =>
  and_then (generate chosen) (fun result_text =>
  and_then (lift (parse_analysis_result result_text analysis_type))
    (fun structured =>
  Value (mk_analysis result_text structured))))).

(** [analyze_diagram_all(file_path, description)]: the loop over the three
    analysis types, the results keyed by the type. *)
Definition analyze_diagram_all (opens : attempt unit)
    (generate : prompt -> attempt str) : attempt (dict analysis) :=
  fold_left
    (fun results analysis_type =>
       and_then results (fun d =>
       and_then (analyze_diagram_io opens generate analysis_type) (fun r =>
       Value (dict_set d analysis_type r))))
    [SYSTEM_ANALYSIS; DESTRUCTIVE_TESTING; PRR]
    (Value []).

(** ** The files

    The file system is the list of the paths that exist.  Writing a file
    makes its path exist and [os.remove] of an existing path makes it
    vanish; the contents of the files play no part. *)
Definition os_path_exists (files : list str) (path : str) : bool :=
  existsb (str_eqb path) files.

Definition os_remove (files : list str) (path : str) : list str :=
  filter (fun p => negb (str_eqb path p)) files.

Definition write_file (files : list str) (path : str) : list str :=
  if os_path_exists files path then files else files ++ [path].

(** [if os.path.exists(path): os.remove(path)] *)
Definition remove_if_exists (files : list str) (path : str) : list str :=
  if os_path_exists files path then os_remove files path else files.

Definition slash : ascii := ascii_of_nat 47.

(** [os.path.join(directory, name)] of [posixpath] for a directory that is
    not empty and does not end with a slash: a name that starts with a
    slash replaces the directory. *)
Definition os_path_join (directory name : str) : str :=
  match name with
  | c :: _ => if Ascii.eqb c slash then name else directory ++ slash :: name
  | [] => directory ++ [slash]
  end.

Definition UPLOAD_DIR : str := L "uploads".
Definition RESULTS_DIR : str := L "results".

(** ** [routers/analysis.py] *)

(** The model [AnalysisResult].  The handlers store [analysis_result.dict()]
    and build the model again from the stored dictionary: the two
    conversions change nothing. *)
Record AnalysisResult := mk_AnalysisResult {
  result_id : str;  (* the field [id] *)
  user_id : str;
  analysis_type : str;
  description : str;
  file_name : str;
  file_path : str;
  result : analysis;
  created_at : str;
  updated_at : str
}.

(** The state of the server: the dictionary [analysis_results] of the
    module and the files. *)
Record server := mk_server {
  analysis_results : dict AnalysisResult;
  files : list str
}.

(** [del d[k]] for a key of [d]. *)
Fixpoint dict_del {V} (d : dict V) (k : str) : dict V :=
  match d with
  | [] => []
  | (k', v') :: d' => if str_eqb k k' then d' else (k', v') :: dict_del d' k
  end.

(** In all the handlers [username] is [current_user.username], the user
    that the dependency [get_current_active_user] has let in. *)
Definition get_analysis (s : server) (analysis_id username : str)
  : attempt AnalysisResult :=
  match dict_get (analysis_results s) analysis_id with
  | None => Raise (HTTPException 404 (L "Analysis not found"))
  | Some r =>
      if negb (str_eqb (user_id r) username) then
        Raise (HTTPException 403 (L "Not authorized to access this analysis"))
      else Value r
  end.

Definition list_analysis (s : server) (username : str) : list AnalysisResult :=
  filter (fun r => str_eqb (user_id r) username) (values (analysis_results s)).

Definition result_path (analysis_id : str) : str :=
  os_path_join RESULTS_DIR (analysis_id ++ L ".json").

Definition delete_analysis (s : server) (analysis_id username : str)
  : attempt unit * server :=
  match dict_get (analysis_results s) analysis_id with
  | None => (Raise (HTTPException 404 (L "Analysis not found")), s)
  | Some r =>
      if negb (str_eqb (user_id r) username) then
        (Raise (HTTPException 403 (L "Not authorized to delete this analysis")), s)
      else
        let files1 := remove_if_exists (files s) (file_path r) in
        let files2 := remove_if_exists files1 (result_path analysis_id) in
        (Value tt, mk_server (dict_del (analysis_results s) analysis_id) files2)
  end.

Definition export_formats : list str := map L ["json"; "pdf"; "md"]%string.

Definition export_analysis (s : server) (analysis_id format username : str)
  : attempt AnalysisResult :=
  match dict_get (analysis_results s) analysis_id with
  | None => Raise (HTTPException 404 (L "Analysis not found"))
  | Some r =>
      if negb (str_eqb (user_id r) username) then
        Raise (HTTPException 403 (L "Not authorized to export this analysis"))
      else if negb (existsb (str_eqb (lower format)) export_formats) then
        Raise (HTTPException 400
                 (L "Unsupported export format. Supported formats: json, pdf, md"))
      else Value r
  end.

(** [description or] the empty string *)
Definition or_empty (description : option str) : str :=
  match description with
  | Some d => d
  | None => []
  end.

(** What a request to create an analysis brings, and what the server gets
    from outside while it handles it: the identifier from [uuid.uuid4()],
    the extension from [os.path.splitext(file.filename)[1]], the time. *)
Record upload := mk_upload {
  content_type : str;
  filename : str;
  file_extension : str;
  new_id : str;
  timestamp : str
}.

Definition store_result (s : server) (r : AnalysisResult) : server :=
  mk_server (dict_set (analysis_results s) (result_id r) r)
            (write_file (files s) (result_path (result_id r))).

Definition create_analysis (http_str : nat -> str -> str) (s : server)
    (up : upload) (analysis_type : str) (desc : option str) (username : str)
    (opens : attempt unit) (generate : prompt -> attempt str)
  : attempt AnalysisResult * server :=
  if negb (is_prefix (L "image/") (content_type up)) then
    (Raise (HTTPException 400 (L "File must be an image")), s)
  else
    let analysis_id := new_id up in
    let path := os_path_join UPLOAD_DIR (analysis_id ++ file_extension up) in
    let saved := mk_server (analysis_results s) (write_file (files s) path) in
    match analyze_diagram_io opens generate analysis_type with
    | Value res =>
        let analysis_result :=
          mk_AnalysisResult analysis_id username analysis_type (or_empty desc)
            (filename up) path res (timestamp up) (timestamp up) in
        (Value analysis_result, store_result saved analysis_result)
    | Raise e =>
        (Raise (HTTPException 500
                  (L "Analysis failed: " ++ str_of_raised http_str e)),
         mk_server (analysis_results s)
                   (remove_if_exists (files saved) path))
    end.

(** The loop [for analysis_type, result in results.items()] of
    [create_all_analysis]: the server and the returned dictionary. *)
Definition store_all (s : server) (up : upload) (path : str)
    (desc : option str) (username : str) (results : dict analysis)
  : dict AnalysisResult * server :=
  fold_left
    (fun acc item =>
       let analysis_id := new_id up ++ L "_" ++ fst item in
       let analysis_result :=
         mk_AnalysisResult analysis_id username (fst item) (or_empty desc)
           (filename up) path (snd item) (timestamp up) (timestamp up) in
       (dict_set (fst acc) (fst item) analysis_result,
        store_result (snd acc) analysis_result))
    results ([], s).

Definition create_all_analysis (http_str : nat -> str -> str) (s : server)
    (up : upload) (desc : option str) (username : str)
    (opens : attempt unit) (generate : prompt -> attempt str)
  : attempt (dict AnalysisResult) * server :=
  if negb (is_prefix (L "image/") (content_type up)) then
    (Raise (HTTPException 400 (L "File must be an image")), s)
  else
    let path := os_path_join UPLOAD_DIR (new_id up ++ file_extension up) in
    let saved := mk_server (analysis_results s) (write_file (files s) path) in
    match analyze_diagram_all opens generate with
    | Value results =>
        let stored := store_all saved up path desc username results in
        (Value (fst stored), snd stored)
    | Raise e =>
        (Raise (HTTPException 500
                  (L "Analysis failed: " ++ str_of_raised http_str e)),
         mk_server (analysis_results s)
                   (remove_if_exists (files saved) path))
    end.

(** ** [mcp_server.py] *)

(** [analyze_architecture(request)].  [decoded] is what
    [base64.b64decode(request.diagram_base64)] does and [temp_file_path]
    the name of the temporary file.  Everything happens inside [try], so
    the [HTTPException] of an invalid type is caught like any other. *)
Definition mcp_analysis_type (analysis_type : str) : attempt str :=
  if str_eqb analysis_type (L "system_analysis") then Value SYSTEM_ANALYSIS
  else if str_eqb analysis_type (L "destructive_testing") then Value DESTRUCTIVE_TESTING
  else if str_eqb analysis_type (L "prr") then Value PRR
  else Raise (HTTPException 400 (L "Invalid analysis type: " ++ analysis_type)).

Definition analyze_architecture (http_str : nat -> str -> str)
    (fs : list str) (decoded : attempt unit) (temp_file_path : str)
    (analysis_type : str)
    (opens : attempt unit) (generate : prompt -> attempt str)
  : attempt analysis * list str :=
  let body : attempt analysis * list str :=
    match decoded with
    | Raise e => (Raise e, fs)
    | Value _ =>
        let fs1 := write_file fs temp_file_path in
        match mcp_analysis_type analysis_type with
        | Raise e => (Raise e, fs1)
        | Value chosen =>
            match analyze_diagram_io opens generate chosen with
            | Raise e => (Raise e, fs1)
            | Value res => (Value res, os_remove fs1 temp_file_path)
            end
        end
    end in
  match fst body with
  | Value res => (Value res, snd body)
  | Raise e =>
      (Raise (HTTPException 500
                (L "Analysis failed: " ++ str_of_raised http_str e)),
       snd body)
  end.

(** ** [routers/users.py] *)

(** An entry of [fake_users_db]. *)
Record user_data := mk_user_data {
  username : str;
  email : str;
  full_name : str;
  hashed_password : str;
  disabled : bool
}.

(** The answer of the handlers, the model [UserResponse]. *)
Definition user_response (u : user_data) : str * str * str :=
  (username u, email u, full_name u).

(** [get_password_hash] comes from the module [auth], which is not part
    of the sources at hand: it is a parameter. *)
Definition create_user (get_password_hash : str -> str) (db : dict user_data)
    (name mail full password : str)
  : attempt (str * str * str) * dict user_data :=
  match dict_get db name with
  | Some _ => (Raise (HTTPException 400 (L "Username already registered")), db)
  | None =>
      (Value (name, mail, full),
       dict_set db name
         (mk_user_data name mail full (get_password_hash password) false))
  end.

Definition read_users (db : dict user_data) : list (str * str * str) :=
  map (fun item => user_response (snd item)) db.

Definition read_user (db : dict user_data) (name : str)
  : attempt (str * str * str) :=
  match dict_get db name with
  | None => Raise (HTTPException 404 (L "User not found"))
  | Some u => Value (user_response u)
  end.

Definition delete_user (db : dict user_data) (name : str)
  : attempt unit * dict user_data :=
  match dict_get db name with
  | None => (Raise (HTTPException 404 (L "User not found")), db)
  | Some _ => (Value tt, dict_del db name)
  end.

(** The path under which [create_analysis] and [create_all_analysis] save
    the uploaded diagram. *)
Definition upload_path (up : upload) : str :=
  os_path_join UPLOAD_DIR (new_id up ++ file_extension up).

(** ** The states the server can reach *)

(** Every record is stored under its own identifier, and no identifier
    occurs twice. *)
Definition keyed_by_id (d : dict AnalysisResult) : Prop :=
  (forall k r, In (k, r) d -> result_id r = k) /\ NoDup (keys d).

(** The dictionary of results is empty when the module is loaded; from
    then on only the three handlers below change it. *)
Inductive reachable : server -> Prop :=
| reach_start (fs : list str) : reachable (mk_server [] fs)
| reach_create (http_str : nat -> str -> str) (s : server) (up : upload)
    (tag : str) (desc : option str) (user : str)
    (opens : attempt unit) (generate : prompt -> attempt str) :
    reachable s ->
    reachable (snd (create_analysis http_str s up tag desc user opens generate))
| reach_create_all (http_str : nat -> str -> str) (s : server) (up : upload)
    (desc : option str) (user : str)
    (opens : attempt unit) (generate : prompt -> attempt str) :
    reachable s ->
    reachable (snd (create_all_analysis http_str s up desc user opens generate))
| reach_delete (s : server) (analysis_id user : str) :
    reachable s ->
    reachable (snd (delete_analysis s analysis_id user)).

(** * Properties *)

(** ** Strings *)

Lemma str_eqb_eq (a b : str) : str_eqb a b = true <-> a = b.
Proof.
  revert b; induction a as [|x a IH]; intros [|y b]; simpl;
    try (split; [discriminate | discriminate]); try tauto.
  rewrite andb_true_iff, Ascii.eqb_eq, IH.
  split; [intros [-> ->]; reflexivity | intros H; inversion H; auto].
Qed.

Lemma str_eqb_refl (a : str) : str_eqb a a = true.
Proof. apply str_eqb_eq; reflexivity. Qed.

Lemma str_eqb_neq (a b : str) : str_eqb a b = false <-> a <> b.
Proof.
  rewrite <- str_eqb_eq. destruct (str_eqb a b); split; congruence.
Qed.

Lemma is_nl_true (c : ascii) : is_nl c = true <-> c = nl.
Proof. apply Ascii.eqb_eq. Qed.

Lemma split_lines_cons (s : str) :
  exists l ls, split_lines s = l :: ls.
Proof.
  induction s as [|c s IH]; simpl; [eauto|].
  destruct (is_nl c); [eauto|].
  destruct IH as (l & ls & ->); eauto.
Qed.

Lemma split_lines_nl_free (s : str) : Forall nl_free (split_lines s).
Proof.
  induction s as [|c s IH]; simpl.
  - repeat constructor. intros [].
  - destruct (is_nl c) eqn:E.
    + constructor; [intros [] | exact IH].
    + destruct (split_lines s) as [|l ls].
      * repeat constructor. intros [H|[]]. subst c.
        unfold is_nl in E. rewrite Ascii.eqb_refl in E. discriminate.
      * inversion IH as [|? ? Hl Hls]; subst. constructor; [|exact Hls].
        intros [H|H]; [|exact (Hl H)]. subst c.
        unfold is_nl in E. rewrite Ascii.eqb_refl in E. discriminate.
Qed.

Lemma join_split (s : str) : join_lines (split_lines s) = s.
Proof.
  induction s as [|c s IH]; simpl; [reflexivity|].
  destruct (is_nl c) eqn:E.
  - apply is_nl_true in E. subst c.
    destruct (split_lines_cons s) as (l & ls & Hs).
    rewrite Hs in *. simpl. f_equal. exact IH.
  - destruct (split_lines_cons s) as (l & ls & Hs).
    rewrite Hs in *. destruct ls; simpl in *; f_equal; exact IH.
Qed.

Lemma split_nl_free_line (l : str) : nl_free l -> split_lines l = [l].
Proof.
  induction l as [|c l IH]; intros H; simpl; [reflexivity|].
  destruct (is_nl c) eqn:E.
  - apply is_nl_true in E. subst c. exfalso. apply H. left. reflexivity.
  - rewrite IH; [reflexivity|]. intros Hin. apply H. right. exact Hin.
Qed.

Lemma split_app_nl (l s : str) :
  nl_free l -> split_lines (l ++ nl :: s) = l :: split_lines s.
Proof.
  induction l as [|c l IH]; intros H; simpl.
  - reflexivity.
  - destruct (is_nl c) eqn:E.
    + apply is_nl_true in E. subst c. exfalso. apply H. left. reflexivity.
    + rewrite IH; [reflexivity|]. intros Hin. apply H. right. exact Hin.
Qed.

Lemma split_join (ls : list str) :
  ls <> [] -> Forall nl_free ls -> split_lines (join_lines ls) = ls.
Proof.
  induction ls as [|l ls IH]; intros Hne Hall; [congruence|].
  inversion Hall as [|? ? Hl Hls]; subst.
  destruct ls as [|l' ls].
  - simpl. apply split_nl_free_line. exact Hl.
  - change (join_lines (l :: l' :: ls)) with (l ++ nl :: join_lines (l' :: ls)).
    rewrite split_app_nl by exact Hl. f_equal. apply IH; [discriminate|exact Hls].
Qed.

Lemma join_lines_inj (a b : list str) :
  a <> [] -> b <> [] -> Forall nl_free a -> Forall nl_free b ->
  join_lines a = join_lines b -> a = b.
Proof.
  intros Ha Hb Fa Fb E.
  rewrite <- (split_join Ha Fa), <- (split_join Hb Fb), E. reflexivity.
Qed.

Lemma split_lines_nonempty_text (text : str) :
  2 <= length (split_lines text) -> text <> [].
Proof. intros H ->. simpl in H. lia. Qed.

(** ** Dictionaries *)

Lemma dict_get_set_same {V} (d : dict V) k v :
  dict_get (dict_set d k v) k = Some v.
Proof.
  induction d as [|[k' v'] d IH]; simpl.
  - rewrite str_eqb_refl. reflexivity.
  - destruct (str_eqb k k') eqn:E; simpl; rewrite E; [reflexivity|exact IH].
Qed.

Lemma dict_get_set_other {V} (d : dict V) k k' v :
  k' <> k -> dict_get (dict_set d k v) k' = dict_get d k'.
Proof.
  intros Hne. induction d as [|[k0 v0] d IH]; simpl.
  - apply str_eqb_neq in Hne. rewrite Hne. reflexivity.
  - destruct (str_eqb k k0) eqn:E; simpl.
    + apply str_eqb_eq in E. subst k0.
      apply str_eqb_neq in Hne. rewrite Hne. reflexivity.
    + rewrite IH. reflexivity.
Qed.

Lemma keys_dict_set {V} (d : dict V) k v k' :
  In k' (keys (dict_set d k v)) <-> k' = k \/ In k' (keys d).
Proof.
  induction d as [|[k0 v0] d IH]; simpl.
  - intuition.
  - destruct (str_eqb k k0) eqn:E; simpl.
    + apply str_eqb_eq in E. subst. intuition.
    + rewrite IH. intuition.
Qed.

Lemma dict_set_absent {V} (d : dict V) k v :
  ~ In k (keys d) -> dict_set d k v = d ++ [(k, v)].
Proof.
  induction d as [|[k0 v0] d IH]; simpl; intros H; [reflexivity|].
  destruct (str_eqb k k0) eqn:E.
  - apply str_eqb_eq in E. subst. exfalso. apply H. left. reflexivity.
  - rewrite IH; [reflexivity|]. intros Hin. apply H. right. exact Hin.
Qed.

Lemma dict_get_in_keys {V} (d : dict V) k :
  dict_get d k <> None <-> In k (keys d).
Proof.
  induction d as [|[k0 v0] d IH]; simpl.
  - split; [congruence | intros []].
  - destruct (str_eqb k k0) eqn:E.
    + apply str_eqb_eq in E. subst. split; [auto | discriminate].
    + apply str_eqb_neq in E. rewrite IH. split; [auto|].
      intros [H|H]; [congruence | exact H].
Qed.

Lemma dict_set_length_present {V} (d : dict V) k v :
  In k (keys d) -> length (dict_set d k v) = length d.
Proof.
  induction d as [|[k0 v0] d IH]; simpl; intros H; [contradiction|].
  destruct (str_eqb k k0) eqn:E; simpl; [reflexivity|].
  f_equal. apply IH. destruct H as [H|H]; [|exact H].
  apply str_eqb_neq in E. congruence.
Qed.

Lemma dict_set_twice {V} (d : dict V) k v w :
  dict_set (dict_set d k v) k w = dict_set d k w.
Proof.
  induction d as [|[k0 v0] d IH]; simpl.
  - rewrite str_eqb_refl. reflexivity.
  - destruct (str_eqb k k0) eqn:E; simpl; rewrite E; [reflexivity|].
    rewrite IH. reflexivity.
Qed.

Lemma dict_set_swap {V} (d : dict V) k v k' w :
  In k (keys d) -> k' <> k ->
  dict_set (dict_set d k v) k' w = dict_set (dict_set d k' w) k v.
Proof.
  intros Hin Hne. induction d as [|[k0 v0] d IH]; simpl in *; [contradiction|].
  destruct (str_eqb k k0) eqn:E; destruct (str_eqb k' k0) eqn:E'; simpl;
    rewrite ?E, ?E'; try reflexivity.
  - apply str_eqb_eq in E, E'. congruence.
  - f_equal. apply IH. destruct Hin as [H|H]; [|exact H].
    apply str_eqb_neq in E. congruence.
Qed.

(** ** The line loop *)

Lemma run_lines_app (st : seg_state) (l1 l2 : list str) :
  run_lines st (l1 ++ l2) = run_lines (run_lines st l1) l2.
Proof. apply fold_left_app. Qed.

Lemma seg_step_heading (st : seg_state) (line : str) :
  is_heading line = true ->
  seg_step st line =
  mk_seg (save_section st) (section_name line (length (save_section st))) [].
Proof. intros H. unfold seg_step. rewrite H. reflexivity. Qed.

Lemma seg_step_body (st : seg_state) (line : str) :
  is_heading line = false ->
  seg_step st line =
  mk_seg (sections st) (current_section st) (current_content st ++ [line]).
Proof. intros H. unfold seg_step. rewrite H. reflexivity. Qed.

Lemma run_lines_body (st : seg_state) (b : list str) :
  no_heading b ->
  run_lines st b =
  mk_seg (sections st) (current_section st) (current_content st ++ b).
Proof.
  revert st. induction b as [|line b IH]; intros st Hb.
  - simpl. rewrite app_nil_r. destruct st; reflexivity.
  - inversion Hb as [|? ? Hline Hrest]; subst.
    change (run_lines st (line :: b)) with (run_lines (seg_step st line) b).
    rewrite IH by exact Hrest.
    rewrite seg_step_body by exact Hline. simpl.
    rewrite <- app_assoc. reflexivity.
Qed.

Lemma save_section_pending (st : seg_state) :
  save_section st = set_all (sections st) (pending st).
Proof.
  unfold save_section, pending. destruct (current_content st); reflexivity.
Qed.

Lemma set_all_app (d : dict str) (ws ws' : list (str * str)) :
  set_all d (ws ++ ws') = set_all (set_all d ws) ws'.
Proof. apply fold_left_app. Qed.

(** The dictionary after the loop is the initial one with the saved bodies
    assigned in order. *)
Lemma save_run_saves (st : seg_state) (lines : list str) :
  save_section (run_lines st lines) = set_all (sections st) (saves_from st lines).
Proof.
  revert st. induction lines as [|line rest IH]; intros st.
  - apply save_section_pending.
  - change (run_lines st (line :: rest)) with (run_lines (seg_step st line) rest).
    rewrite IH. simpl saves_from. rewrite set_all_app.
    unfold seg_step. destruct (is_heading line); simpl.
    + rewrite save_section_pending. reflexivity.
    + reflexivity.
Qed.

Lemma set_all_fresh (ws : list (str * str)) (d : dict str) :
  NoDup (map fst ws) ->
  (forall k, In k (map fst ws) -> ~ In k (keys d)) ->
  set_all d ws = d ++ ws.
Proof.
  revert d. induction ws as [|[k v] ws IH]; intros d Hnd Hfresh.
  - simpl. rewrite app_nil_r. reflexivity.
  - inversion Hnd as [|? ? Hk Hnd']; subst.
    change (set_all d ((k, v) :: ws)) with (set_all (dict_set d k v) ws).
    rewrite dict_set_absent by (apply Hfresh; left; reflexivity).
    rewrite IH; [rewrite <- app_assoc; reflexivity|exact Hnd'|].
    intros k' Hk' Hin. unfold keys in Hin. rewrite map_app in Hin.
    apply in_app_or in Hin. destruct Hin as [Hin|[Hin|[]]].
    + apply (Hfresh k'); [right; exact Hk'|exact Hin].
    + simpl in Hin. subst k'. exact (Hk Hk').
Qed.

Lemma body_lines_app (d d' : dict str) :
  body_lines (d ++ d') = body_lines d + body_lines d'.
Proof. unfold body_lines. rewrite map_app, list_sum_app. reflexivity. Qed.

Lemma body_lines_pending (st : seg_state) :
  Forall nl_free (current_content st) ->
  body_lines (pending st) = length (current_content st).
Proof.
  unfold pending. intros H. destruct (current_content st) as [|l ls] eqn:E.
  - reflexivity.
  - unfold body_lines. cbn [map list_sum snd]. unfold line_count.
    rewrite split_join; [simpl; lia|discriminate|exact H].
Qed.

(** Every line is either a heading or counted in exactly one saved body. *)
Lemma saves_account (lines : list str) (st : seg_state) :
  Forall nl_free lines -> Forall nl_free (current_content st) ->
  body_lines (saves_from st lines) + length (filter is_heading lines)
  = length (current_content st) + length lines.
Proof.
  revert st. induction lines as [|line rest IH]; intros st Hl Hc; simpl.
  - rewrite body_lines_pending by exact Hc. lia.
  - inversion Hl as [|? ? Hline Hrest]; subst.
    rewrite body_lines_app. unfold seg_step.
    destruct (is_heading line); simpl.
    + rewrite body_lines_pending by exact Hc.
      rewrite <- Nat.add_assoc. simpl.
      specialize (IH (mk_seg (save_section st)
                        (section_name line (length (save_section st))) [])
                     Hrest (Forall_nil _)).
      simpl in IH. lia.
    + specialize (IH (mk_seg (sections st) (current_section st)
                        (current_content st ++ [line])) Hrest).
      simpl in IH. rewrite IH.
      * rewrite length_app. simpl. unfold body_lines. simpl. lia.
      * apply Forall_app. split; [exact Hc|]. constructor; [exact Hline|constructor].
Qed.

Lemma filter_all_length {A} (f : A -> bool) (l : list A) :
  length (filter f l) = length l -> forall x, In x l -> f x = true.
Proof.
  induction l as [|a l IH]; simpl; intros H x Hx; [contradiction|].
  pose proof (filter_length_le f l) as Hle.
  destruct (f a) eqn:E; simpl in H.
  - destruct Hx as [<-|Hx]; [exact E|]. apply IH; [lia|exact Hx].
  - lia.
Qed.

(** C1, as amended.  Every line of the text is a heading or is counted in
    exactly one saved body, and the dictionary of the loop is what these
    savings leave, a later one replacing an earlier one of the same name.
    When no section name is saved twice and some line is not a heading,
    the lines of the bodies in [sections] and the heading lines add up to
    the lines of the text. *)
Theorem segmentation_accounts_for_lines (text : str) :
  body_lines (saves_from initial_state (split_lines text)) + heading_count text
  = line_total text
  /\ segment_lines (split_lines text)
     = set_all [] (saves_from initial_state (split_lines text))
  /\ (NoDup (saved_names text) ->
      (exists line, In line (split_lines text) /\ is_heading line = false) ->
      body_lines (line_sections text) + heading_count text = line_total text).
Proof.
  pose proof (saves_account initial_state (split_lines_nl_free text)
                (Forall_nil _)) as Hacc.
  simpl in Hacc.
  split; [exact Hacc|]. split; [apply (save_run_saves initial_state)|].
  intros Hnd (line & Hin & Hline).
  unfold line_sections, segment_lines.
  rewrite save_run_saves. simpl sections.
  unfold saved_names in Hnd.
  rewrite set_all_fresh; [simpl|exact Hnd|intros k _ []].
  destruct (saves_from initial_state (split_lines text)) as [|w ws] eqn:Ews.
  - exfalso. change (body_lines []) with 0 in Hacc. simpl in Hacc.
    pose proof (filter_all_length is_heading (split_lines text) Hacc line Hin).
    congruence.
  - exact Hacc.
Qed.

Lemma segmentation_accounts_for_lines_witness :
  let text := L "intro
NOTES:
first
SECURITY:
second" in
  body_lines (line_sections text) + heading_count text = line_total text.
Proof.
  intros text.
  apply (proj2 (proj2 (segmentation_accounts_for_lines text))).
  - vm_compute. repeat constructor; simpl; intuition discriminate.
  - exists (L "intro"). split; [vm_compute; auto | reflexivity].
Defined.

(** C1 as stated fails: a heading named as the running section makes the
    second body replace the first, whose line is then counted nowhere. *)
Lemma segmentation_loses_overwritten_lines :
  let text := L "a
OVERVIEW:
b" in
  text <> [] /\
  line_sections text = [(L "overview", L "b")] /\
  body_lines (line_sections text) = 1 /\
  heading_count text = 1 /\
  line_total text = 3 /\
  body_lines (line_sections text) + heading_count text <> line_total text.
Proof.
  vm_compute. repeat split; discriminate.
Qed.

(** ** Last write wins *)

Lemma section_name_normalize (line : str) (k : nat) :
  normalize line <> [] -> section_name line k = normalize line.
Proof.
  unfold section_name. destruct (normalize line); [congruence|reflexivity].
Qed.

Lemma save_section_get_other (st : seg_state) (n : str) :
  current_section st <> n ->
  dict_get (save_section st) n = dict_get (sections st) n.
Proof.
  intros H. unfold save_section. destruct (current_content st); [reflexivity|].
  apply dict_get_set_other. congruence.
Qed.

(** Once the loop has left the section [n], and no later heading takes
    that name, the body stored under [n] stays. *)
Lemma run_lines_keeps (n : str) (lines : list str) (st : seg_state) :
  name_unused n lines -> current_section st <> n ->
  dict_get (save_section (run_lines st lines)) n = dict_get (sections st) n.
Proof.
  revert st. induction lines as [|line rest IH]; intros st Hun Hcur.
  - apply save_section_get_other. exact Hcur.
  - change (run_lines st (line :: rest)) with (run_lines (seg_step st line) rest).
    assert (Hrest : name_unused n rest).
    { intros l k Hl. apply Hun. right. exact Hl. }
    destruct (is_heading line) eqn:E.
    + rewrite seg_step_heading by exact E.
      rewrite IH; simpl; [apply save_section_get_other; exact Hcur|exact Hrest|].
      apply Hun; [left; reflexivity|exact E].
    + rewrite seg_step_body by exact E.
      rewrite IH; simpl; [reflexivity|exact Hrest|exact Hcur].
Qed.

(** The body that follows a heading is stored under the name of that
    heading when the next heading, or the end of the text, is reached. *)
Lemma body_saved_at_next_heading (st : seg_state) (b post : list str) :
  current_content st = [] -> b <> [] -> no_heading b ->
  opens_with_heading post -> name_unused (current_section st) post ->
  dict_get (save_section (run_lines st (b ++ post))) (current_section st)
  = Some (join_lines b).
Proof.
  intros Hc Hb Hnb Hpost Hun.
  rewrite run_lines_app. rewrite (run_lines_body st Hnb). rewrite Hc. simpl app.
  destruct post as [|h post].
  - simpl. unfold save_section. simpl.
    destruct b; [congruence|]. apply dict_get_set_same.
  - simpl in Hpost.
    change (run_lines ?s (h :: post)) with (run_lines (seg_step s h) post).
    rewrite seg_step_heading by exact Hpost.
    rewrite run_lines_keeps.
    + simpl. unfold save_section. simpl.
      destruct b; [congruence|]. apply dict_get_set_same.
    + intros l k Hl. apply Hun. right. exact Hl.
    + simpl. apply Hun; [left; reflexivity|exact Hpost].
Qed.

Lemma heading_then_body (st : seg_state) (h : str) (b post : list str) (n : str) :
  is_heading h = true -> normalize h = n -> n <> [] ->
  b <> [] -> no_heading b -> opens_with_heading post -> name_unused n post ->
  dict_get (save_section (run_lines st (h :: b ++ post))) n = Some (join_lines b).
Proof.
  intros Hh Hn Hne Hb Hnb Hpost Hun.
  change (run_lines st (h :: b ++ post))
    with (run_lines (seg_step st h) (b ++ post)).
  rewrite seg_step_heading by exact Hh.
  rewrite section_name_normalize by congruence. rewrite Hn.
  apply (body_saved_at_next_heading
           (mk_seg (save_section st) n []) (b:=b) (post:=post));
    simpl; auto.
Qed.

Lemma Forall_app_l {A} (P : A -> Prop) (l1 l2 : list A) :
  Forall P (l1 ++ l2) -> Forall P l1.
Proof. intros H. apply Forall_app in H. tauto. Qed.

Lemma Forall_app_r {A} (P : A -> Prop) (l1 l2 : list A) :
  Forall P (l1 ++ l2) -> Forall P l2.
Proof. intros H. apply Forall_app in H. tauto. Qed.

(** C8.  Two headings with the same name, each followed by a body, with
    anything between the first body and the second heading, other
    sections included: the first body is stored under the name when the
    heading that ends it is met, and at the end the name holds the second
    body, which is another string. *)
Theorem last_write_wins (text : str) (pre : list str) (h1 : str)
    (b1 mid : list str) (h2 : str) (b2 post : list str) (n : str) :
  split_lines text = pre ++ h1 :: b1 ++ mid ++ h2 :: b2 ++ post ->
  is_heading h1 = true -> is_heading h2 = true ->
  normalize h1 = n -> normalize h2 = n -> n <> [] ->
  b1 <> [] -> b2 <> [] -> no_heading b1 -> no_heading b2 -> b1 <> b2 ->
  opens_with_heading mid -> opens_with_heading post -> name_unused n post ->
  dict_get (sections (run_lines initial_state
                        (pre ++ h1 :: b1 ++ [hd h2 mid]))) n
    = Some (join_lines b1)
  /\ dict_get (line_sections text) n = Some (join_lines b2)
  /\ join_lines b2 <> join_lines b1.
Proof.
  intros Hsplit Hh1 Hh2 Hn1 Hn2 Hne Hb1 Hb2 Hnb1 Hnb2 Hdiff Hmid Hpost Hun.
  assert (Hfree : Forall nl_free (split_lines text)) by apply split_lines_nl_free.
  rewrite Hsplit in Hfree.
  assert (Hsecond :
            dict_get (segment_lines (split_lines text)) n = Some (join_lines b2)).
  { unfold segment_lines. rewrite Hsplit.
    replace (pre ++ h1 :: b1 ++ mid ++ h2 :: b2 ++ post)
      with ((pre ++ h1 :: b1 ++ mid) ++ h2 :: b2 ++ post)
      by (rewrite <- !app_assoc; simpl; rewrite <- !app_assoc; reflexivity).
    rewrite run_lines_app. apply heading_then_body; auto. }
  assert (Hnext : is_heading (hd h2 mid) = true).
  { destruct mid as [|m mid]; [exact Hh2|exact Hmid]. }
  split; [|split].
  - replace (pre ++ h1 :: b1 ++ [hd h2 mid])
      with ((pre ++ h1 :: b1) ++ [hd h2 mid])
      by (rewrite <- app_assoc; reflexivity).
    rewrite run_lines_app. simpl run_lines at 1.
    rewrite seg_step_heading by exact Hnext. simpl sections.
    rewrite run_lines_app.
    pose proof (@heading_then_body (run_lines initial_state pre) h1 b1 [] n
                  Hh1 Hn1 Hne Hb1 Hnb1 I) as H.
    rewrite app_nil_r in H. apply H. intros l k [].
  - unfold line_sections.
    destruct (segment_lines (split_lines text)); [discriminate|exact Hsecond].
  - intros E. apply Hdiff. symmetry.
    apply Forall_app_r in Hfree. inversion Hfree as [|? ? _ Hfree1]; subst.
    apply join_lines_inj; auto.
    + apply Forall_app_r in Hfree1. apply Forall_app_r in Hfree1.
      inversion Hfree1 as [|? ? _ Hfree2]; subst.
      apply Forall_app_l in Hfree2. exact Hfree2.
    + apply Forall_app_l in Hfree1. exact Hfree1.
Qed.

Lemma last_write_wins_witness :
  let text := L "# A
x
# B
y
# A
z" in
  dict_get (sections (run_lines initial_state
                        ([] ++ L "# A" :: [L "x"]
                            ++ [hd (L "# A") [L "# B"; L "y"]])))
           (L "a") = Some (join_lines [L "x"])
  /\ dict_get (line_sections text) (L "a") = Some (join_lines [L "z"])
  /\ join_lines [L "z"] <> join_lines [L "x"].
Proof.
  intros text.
  apply (@last_write_wins text [] (L "# A") [L "x"] [L "# B"; L "y"]
           (L "# A") [L "z"] [] (L "a")).
  - reflexivity.
  - reflexivity.
  - reflexivity.
  - reflexivity.
  - reflexivity.
  - discriminate.
  - discriminate.
  - discriminate.
  - repeat constructor.
  - repeat constructor.
  - discriminate.
  - reflexivity.
  - exact I.
  - intros line k [].
Defined.

(** ** The preamble and a later heading named overview *)

Section Similarity.

Variable k : str.

Lemma differ_at_length (d d' : dict str) :
  differ_at k d d' -> length d' = length d.
Proof.
  intros [Hin [v ->]]. apply dict_set_length_present. exact Hin.
Qed.

Lemma differ_at_set (d d' : dict str) (k' w : str) :
  differ_at k d d' -> differ_at k (dict_set d k' w) (dict_set d' k' w).
Proof.
  intros [Hin [v ->]]. split.
  - apply keys_dict_set. right. exact Hin.
  - destruct (list_eq_dec ascii_dec k' k) as [->|Hne].
    + exists w. rewrite !dict_set_twice. reflexivity.
    + exists v. apply dict_set_swap; assumption.
Qed.

Lemma differ_at_set_same (d d' : dict str) (w : str) :
  differ_at k d d' -> dict_set d k w = dict_set d' k w.
Proof.
  intros [Hin [v ->]]. rewrite dict_set_twice. reflexivity.
Qed.

Lemma similar_save (st st' : seg_state) :
  similar k st st' -> differ_at k (save_section st) (save_section st').
Proof.
  intros (Hcur & Hcont & Hd). unfold save_section.
  rewrite <- Hcur, <- Hcont.
  destruct (current_content st); [exact Hd|].
  apply differ_at_set. exact Hd.
Qed.

Lemma similar_step (st st' : seg_state) (line : str) :
  similar k st st' -> similar k (seg_step st line) (seg_step st' line).
Proof.
  intros Hsim. pose proof (similar_save Hsim) as Hsave.
  destruct Hsim as (Hcur & Hcont & Hd).
  unfold seg_step. destruct (is_heading line); split; [|split| |split]; simpl.
  - rewrite (differ_at_length Hsave). reflexivity.
  - reflexivity.
  - exact Hsave.
  - exact Hcur.
  - rewrite Hcont. reflexivity.
  - exact Hd.
Qed.

Lemma similar_run (lines : list str) (st st' : seg_state) :
  similar k st st' -> similar k (run_lines st lines) (run_lines st' lines).
Proof.
  revert st st'. induction lines as [|line rest IH]; intros st st' H.
  - exact H.
  - apply (IH (seg_step st line) (seg_step st' line)).
    apply similar_step. exact H.
Qed.

Lemma similar_save_same (st st' : seg_state) :
  similar k st st' -> current_section st = k -> current_content st <> [] ->
  save_section st = save_section st'.
Proof.
  intros (Hcur & Hcont & Hd) Hk Hne. unfold save_section.
  rewrite <- Hcur, <- Hcont, Hk.
  destruct (current_content st); [congruence|].
  apply differ_at_set_same. exact Hd.
Qed.

(** Once a body is saved under [k] from two similar states, the two runs
    coincide. *)
Lemma similar_runs_join (st st' : seg_state) (post : list str) :
  similar k st st' -> current_section st = k -> current_content st <> [] ->
  opens_with_heading post ->
  save_section (run_lines st post) = save_section (run_lines st' post).
Proof.
  intros Hsim Hk Hne Hpost. pose proof (similar_save_same Hsim Hk Hne) as E.
  destruct post as [|h post].
  - exact E.
  - simpl in Hpost.
    change (run_lines ?s (h :: post)) with (run_lines (seg_step s h) post).
    rewrite !seg_step_heading by exact Hpost. rewrite E. reflexivity.
Qed.

End Similarity.

(** The first heading after a preamble stores the preamble under
    [overview]; two preambles lead to similar states. *)
Lemma similar_after_preamble (pre pre' : list str) (h : str) :
  pre <> [] -> pre' <> [] -> no_heading pre -> no_heading pre' ->
  is_heading h = true ->
  similar overview (run_lines initial_state (pre ++ [h]))
                   (run_lines initial_state (pre' ++ [h])).
Proof.
  intros Hne Hne' Hp Hp' Hh.
  rewrite !run_lines_app, (run_lines_body _ Hp), (run_lines_body _ Hp').
  simpl. rewrite !seg_step_heading by exact Hh.
  unfold save_section. simpl.
  destruct pre as [|p0 pre]; [congruence|].
  destruct pre' as [|q0 pre']; [congruence|].
  simpl dict_set. repeat split; simpl.
  - left. reflexivity.
  - eexists. reflexivity.
Qed.

Lemma dict_set_not_nil {V} (d : dict V) k v : dict_set d k v <> [].
Proof.
  destruct d as [|[k' v'] d]; simpl; [discriminate|].
  destruct (str_eqb k k'); discriminate.
Qed.

Lemma save_section_grows (st : seg_state) :
  sections st <> [] -> save_section st <> [].
Proof.
  unfold save_section. destruct (current_content st); [auto|].
  intros _. apply dict_set_not_nil.
Qed.

Lemma run_lines_grows (lines : list str) (st : seg_state) :
  sections st <> [] -> save_section (run_lines st lines) <> [].
Proof.
  revert st. induction lines as [|line rest IH]; intros st H.
  - apply save_section_grows. exact H.
  - apply (IH (seg_step st line)). unfold seg_step.
    destruct (is_heading line); simpl; [apply save_section_grows|]; exact H.
Qed.

Lemma body_makes_section (st : seg_state) (b post : list str) :
  b <> [] -> no_heading b -> opens_with_heading post ->
  save_section (run_lines st (b ++ post)) <> [].
Proof.
  intros Hb Hnb Hpost. rewrite run_lines_app. rewrite (run_lines_body st Hnb).
  assert (Hc : current_content st ++ b <> []).
  { destruct b; [congruence|]. destruct (current_content st); discriminate. }
  destruct post as [|h post].
  - simpl. unfold save_section. simpl.
    destruct (current_content st ++ b); [congruence|apply dict_set_not_nil].
  - simpl in Hpost.
    change (run_lines ?s (h :: post)) with (run_lines (seg_step s h) post).
    rewrite seg_step_heading by exact Hpost. apply run_lines_grows. simpl.
    unfold save_section. simpl.
    destruct (current_content st ++ b); [congruence|apply dict_set_not_nil].
Qed.

Lemma sections_entry_returned (text : str) (tag : str) :
  text <> [] -> segment_lines (split_lines text) <> [] ->
  schema_of tag = None \/ 2 <= length (segment_lines (split_lines text)) ->
  exists d, parse_analysis_result text tag = Returns d /\
            dict_get d (L "sections")
            = Some (VDict (segment_lines (split_lines text))).
Proof.
  intros Ht Hne Hcase. destruct text as [|c text]; [congruence|].
  unfold parse_analysis_result.
  assert (Hls : line_sections (c :: text) = segment_lines (split_lines (c :: text))).
  { unfold line_sections. destruct (segment_lines (split_lines (c :: text)));
      [congruence|reflexivity]. }
  rewrite Hls.
  destruct (schema_of tag) as [sch|] eqn:Es.
  - destruct Hcase as [Hcase|Hcase]; [discriminate|].
    eexists. split; [reflexivity|].
    unfold mapped_sections.
    destruct (length (segment_lines (split_lines (c :: text))) <=? 1) eqn:El.
    + apply Nat.leb_le in El. lia.
    + apply dict_get_set_same.
  - eexists. split; [reflexivity|]. reflexivity.
Qed.

(** C10, as amended.  In the dictionary of the line loop the body of a
    later heading named overview replaces the preamble; that dictionary is
    the same whatever the preamble was; and it is the returned sections
    entry when the tag is not recognised or it has two entries or more. *)
Theorem overview_preamble_overwritten (text tag : str)
    (pre mid : list str) (h : str) (b post : list str) :
  split_lines text = pre ++ mid ++ h :: b ++ post ->
  pre <> [] -> no_heading pre -> opens_with_heading mid ->
  is_heading h = true -> normalize h = overview ->
  b <> [] -> no_heading b -> opens_with_heading post ->
  let m := segment_lines (split_lines text) in
  (name_unused overview post -> dict_get m overview = Some (join_lines b))
  /\ (forall pre', pre' <> [] -> no_heading pre' ->
        segment_lines (pre' ++ mid ++ h :: b ++ post) = m)
  /\ (schema_of tag = None \/ 2 <= length m ->
        exists d, parse_analysis_result text tag = Returns d /\
                  dict_get d (L "sections") = Some (VDict m)).
Proof.
  intros Hsplit Hpre Hnpre Hmid Hh Hn Hb Hnb Hpost m.
  assert (Hassoc : forall p : list str,
             p ++ mid ++ h :: b ++ post = (p ++ mid) ++ h :: b ++ post).
  { intros p. rewrite <- app_assoc. reflexivity. }
  split; [|split].
  - intros Hun. unfold m, segment_lines. rewrite Hsplit, Hassoc, run_lines_app.
    apply heading_then_body; auto. discriminate.
  - intros pre' Hpre' Hnpre'. unfold m. rewrite Hsplit. unfold segment_lines.
    assert (Hsim : similar overview
                     (run_lines initial_state (pre' ++ mid ++ [h]))
                     (run_lines initial_state (pre ++ mid ++ [h]))).
    { destruct mid as [|m0 mid].
      - simpl. apply similar_after_preamble; auto.
      - simpl in Hmid.
        replace (pre' ++ (m0 :: mid) ++ [h]) with ((pre' ++ [m0]) ++ mid ++ [h])
          by (rewrite <- app_assoc; reflexivity).
        replace (pre ++ (m0 :: mid) ++ [h]) with ((pre ++ [m0]) ++ mid ++ [h])
          by (rewrite <- app_assoc; reflexivity).
        rewrite (run_lines_app _ (pre' ++ [m0])), (run_lines_app _ (pre ++ [m0])).
        apply similar_run. apply similar_after_preamble; auto. }
    assert (Hcur : forall p, current_section (run_lines initial_state (p ++ mid ++ [h]))
                             = overview
                          /\ current_content (run_lines initial_state (p ++ mid ++ [h]))
                             = []).
    { intros p. rewrite app_assoc, run_lines_app. simpl.
      rewrite seg_step_heading by exact Hh. simpl.
      rewrite section_name_normalize by (rewrite Hn; discriminate). auto. }
    assert (Hcut : forall p, p ++ mid ++ h :: b ++ post
                             = (p ++ mid ++ [h]) ++ b ++ post).
    { intros p. rewrite <- !app_assoc. reflexivity. }
    rewrite !Hcut. rewrite (run_lines_app _ (pre' ++ mid ++ [h])).
    rewrite (run_lines_app _ (pre ++ mid ++ [h])).
    rewrite (run_lines_app _ b post), (run_lines_app _ b post).
    rewrite !(run_lines_body _ Hnb).
    destruct (Hcur pre') as [Hc1 Hc2]. destruct (Hcur pre) as [Hc3 Hc4].
    apply (similar_runs_join (k:=overview)); simpl.
    + destruct Hsim as (Hs1 & Hs2 & Hs3).
      split; [|split]; simpl; [exact Hs1|rewrite Hs2; reflexivity|exact Hs3].
    + exact Hc1.
    + rewrite Hc2. simpl. exact Hb.
    + exact Hpost.
  - intros Hcase.
    assert (Hne : m <> []).
    { unfold m, segment_lines. rewrite Hsplit.
      replace (pre ++ mid ++ h :: b ++ post)
        with ((pre ++ mid ++ [h]) ++ b ++ post)
        by (rewrite <- !app_assoc; reflexivity).
      rewrite run_lines_app. apply body_makes_section; auto. }
    apply sections_entry_returned; auto.
    apply split_lines_nonempty_text. rewrite Hsplit.
    rewrite !length_app. simpl. rewrite length_app.
    destruct pre; [congruence|]. simpl. lia.
Qed.

Lemma overview_preamble_overwritten_witness :
  let text := L "intro
# Scope
details
OVERVIEW:
summary" in
  let m := segment_lines (split_lines text) in
  (name_unused overview [] ->
   dict_get m overview = Some (join_lines [L "summary"]))
  /\ (forall pre', pre' <> [] -> no_heading pre' ->
        segment_lines (pre' ++ [L "# Scope"; L "details"]
                            ++ L "OVERVIEW:" :: [L "summary"] ++ []) = m)
  /\ (schema_of PRR = None \/ 2 <= length m ->
        exists d, parse_analysis_result text PRR = Returns d /\
                  dict_get d (L "sections") = Some (VDict m)).
Proof.
  intros text.
  apply (@overview_preamble_overwritten text PRR [L "intro"]
           [L "# Scope"; L "details"] (L "OVERVIEW:") [L "summary"] []).
  - reflexivity.
  - discriminate.
  - repeat constructor.
  - reflexivity.
  - reflexivity.
  - reflexivity.
  - discriminate.
  - repeat constructor.
  - exact I.
Defined.

(** C10 as stated fails for the returned sections.  The line loop leaves
    one section, so a recognised type has the raw text scanned again for
    keywords: the returned dictionary has no overview entry, and its one
    body holds the second line of the preamble. *)
Lemma preamble_returns_through_keyword_scan :
  let text := L "security
the proxy has no TLS
OVERVIEW:
summary here" in
  split_lines text
  = [L "security"; L "the proxy has no TLS"]
      ++ L "OVERVIEW:" :: [L "summary here"]
  /\ is_heading (L "security") = false
  /\ is_heading (L "the proxy has no TLS") = false
  /\ is_heading (L "OVERVIEW:") = true
  /\ normalize (L "OVERVIEW:") = overview
  /\ is_heading (L "summary here") = false
  /\ segment_lines (split_lines text) = [(overview, L "summary here")]
  /\ exists d secs,
       parse_analysis_result text PRR = Returns d
       /\ dict_get d (L "sections") = Some (VDict secs)
       /\ secs = [(L "security", L "the proxy has no TLS
OVERVIEW:
summary here")]
       /\ dict_get secs overview = None
       /\ existsb (fun p => is_substring (L "the proxy has no TLS") (snd p))
                  secs = true.
Proof.
  vm_compute. repeat split. eexists. eexists. repeat split.
Qed.

(** ** The returned dictionary *)

Lemma nodupb_sound (l : list str) : nodupb l = true -> NoDup l.
Proof.
  induction l as [|x l IH]; simpl; intros H; constructor;
    apply andb_true_iff in H; destruct H as [Hx Hl].
  - intros Hin. apply negb_true_iff in Hx.
    assert (existsb (str_eqb x) l = true); [|congruence].
    apply existsb_exists. exists x. split; [exact Hin|apply str_eqb_refl].
  - apply IH. exact Hl.
Qed.

Lemma not_in_by_existsb (x : str) (l : list str) :
  existsb (str_eqb x) l = false -> ~ In x l.
Proof.
  intros H Hin.
  assert (existsb (str_eqb x) l = true); [|congruence].
  apply existsb_exists. exists x. split; [exact Hin|apply str_eqb_refl].
Qed.

Lemma schema_of_cases (tag : str) (sch : schema) :
  schema_of tag = Some sch ->
  sch = system_analysis_schema \/ sch = destructive_testing_schema
  \/ sch = prr_schema.
Proof.
  unfold schema_of. intros H.
  destruct (str_eqb tag SYSTEM_ANALYSIS); [inversion H; auto|].
  destruct (str_eqb tag DESTRUCTIVE_TESTING); [inversion H; auto|].
  destruct (str_eqb tag PRR); [inversion H; auto|discriminate].
Qed.

Lemma keys_as_values (d : dict str) : keys (as_values d) = keys d.
Proof.
  unfold keys, as_values. rewrite map_map. reflexivity.
Qed.

Lemma keys_extract_fields (sch : schema) (d : dict str) :
  keys (extract_fields sch d) = map fst sch.
Proof.
  unfold keys, extract_fields. rewrite map_map. reflexivity.
Qed.

Lemma keys_raw_text_fields (sch : schema) (text : str) :
  keys (raw_text_fields sch text) = map fst sch.
Proof.
  destruct sch as [|p rest]; simpl; [reflexivity|].
  f_equal. unfold keys. rewrite map_map. reflexivity.
Qed.

Lemma keys_structured_fields (sch : schema) (d : dict str) (text : str) :
  keys (structured_fields sch d text) = map fst sch.
Proof.
  unfold structured_fields. destruct (any_value (extract_fields sch d)).
  - apply keys_extract_fields.
  - apply keys_raw_text_fields.
Qed.

Lemma dict_get_as_values (d : dict str) (f : str) :
  dict_get (as_values d) f = option_map VStr (dict_get d f).
Proof.
  induction d as [|[k v] d IH]; simpl; [reflexivity|].
  destruct (str_eqb f k); [reflexivity|exact IH].
Qed.

Lemma dict_get_app_l {V} (d d' : dict V) (f : str) :
  In f (keys d) -> dict_get (d ++ d') f = dict_get d f.
Proof.
  induction d as [|[k v] d IH]; simpl; intros H; [contradiction|].
  destruct (str_eqb f k) eqn:E; [reflexivity|].
  apply IH. destruct H as [H|H]; [|exact H].
  apply str_eqb_neq in E. congruence.
Qed.

Lemma parse_recognised (text tag : str) (sch : schema) :
  text <> [] -> schema_of tag = Some sch ->
  parse_analysis_result text tag
  = Returns (as_values (structured_fields sch
                          (mapped_sections text (line_sections text)) text)
             ++ [(L "sections",
                  VDict (mapped_sections text (line_sections text)))]).
Proof.
  intros Ht Hs. destruct text as [|c text]; [congruence|].
  unfold parse_analysis_result. rewrite Hs. f_equal.
  apply dict_set_absent. rewrite keys_as_values, keys_structured_fields.
  apply not_in_by_existsb.
  destruct (schema_of_cases _ Hs) as [ -> | [ -> | -> ] ]; reflexivity.
Qed.

(** C2, as amended.  For a non-empty text and a recognised report type,
    the keys of the result are the canonical fields, in order, followed
    by sections; each field holds a string and sections a dictionary. *)
Theorem result_has_canonical_keys (text tag : str) (sch : schema) :
  text <> [] -> schema_of tag = Some sch ->
  exists d,
    parse_analysis_result text tag = Returns d
    /\ keys d = map fst sch ++ [L "sections"]
    /\ NoDup (keys d)
    /\ (forall field, In field (map fst sch) ->
          exists s, dict_get d field = Some (VStr s))
    /\ exists secs, dict_get d (L "sections") = Some (VDict secs).
Proof.
  intros Ht Hs. eexists. split; [exact (@parse_recognised text tag sch Ht Hs)|].
  set (secs := mapped_sections text (line_sections text)).
  set (sf := structured_fields sch secs text).
  assert (Hk : keys (as_values sf ++ [(L "sections", VDict secs)])
               = map fst sch ++ [L "sections"]).
  { unfold keys at 1. rewrite map_app. fold (keys (as_values sf)).
    rewrite keys_as_values. unfold sf. rewrite keys_structured_fields.
    reflexivity. }
  split; [exact Hk|]. split; [|split].
  - rewrite Hk. apply nodupb_sound.
    destruct (schema_of_cases _ Hs) as [ -> | [ -> | -> ] ]; reflexivity.
  - intros field Hf.
    assert (Hin : In field (keys sf)).
    { unfold sf. rewrite keys_structured_fields. exact Hf. }
    rewrite dict_get_app_l by (rewrite keys_as_values; exact Hin).
    rewrite dict_get_as_values.
    apply dict_get_in_keys in Hin.
    destruct (dict_get sf field) as [s|]; [|congruence].
    exists s. reflexivity.
  - exists secs.
    rewrite <- (dict_set_absent (as_values sf) (L "sections") (VDict secs)).
    + apply dict_get_set_same.
    + rewrite keys_as_values. unfold sf. rewrite keys_structured_fields.
      apply not_in_by_existsb.
      destruct (schema_of_cases _ Hs) as [ -> | [ -> | -> ] ]; reflexivity.
Qed.

Lemma result_has_canonical_keys_witness :
  exists d,
    parse_analysis_result (L "RISKS:
none
ROADMAP:
later") PRR = Returns d
    /\ keys d = map fst prr_schema ++ [L "sections"]
    /\ NoDup (keys d)
    /\ (forall field, In field (map fst prr_schema) ->
          exists s, dict_get d field = Some (VStr s))
    /\ exists secs, dict_get d (L "sections") = Some (VDict secs).
Proof.
  apply result_has_canonical_keys.
  - discriminate.
  - reflexivity.
Defined.

(** C2 as stated fails on the empty text: the result has the single key
    text, neither the canonical fields nor sections. *)
Lemma empty_text_lacks_canonical_keys :
  exists d,
    parse_analysis_result [] SYSTEM_ANALYSIS = Returns d
    /\ keys d = [L "text"]
    /\ keys d <> map fst system_analysis_schema ++ [L "sections"]
    /\ dict_get d (L "components") = None
    /\ dict_get d (L "sections") = None.
Proof.
  eexists. split; [reflexivity|]. vm_compute.
  repeat split; discriminate.
Qed.

(** C3, as amended.  For the empty text, whatever the tag, the result is
    the single entry of the early return: it holds no canonical field and
    no sections entry. *)
Theorem empty_text_early_return (tag : str) :
  exists d,
    parse_analysis_result [] tag = Returns d
    /\ d = [(L "text", VStr (L "No analysis data available"))]
    /\ dict_get d (L "sections") = None
    /\ forallb (fun field => match dict_get d field with
                             | None => true
                             | Some _ => false
                             end) all_fields = true.
Proof.
  eexists. split; [reflexivity|]. split; [reflexivity|].
  split; reflexivity.
Qed.

(** C3 as stated fails: on the empty text the sections entry is absent,
    and so is every canonical field. *)
Lemma empty_text_has_no_fallback_section :
  exists d,
    parse_analysis_result [] PRR = Returns d
    /\ dict_get d (L "sections") = None
    /\ dict_get d (L "executive_summary") = None
    /\ length d = 1.
Proof.
  eexists. split; [reflexivity|]. repeat split; reflexivity.
Qed.

(** ** Failures *)


Lemma parse_returns (text tag : str) :
  exists d, parse_analysis_result text tag = Returns d.
Proof.
  unfold parse_analysis_result. destruct text; [eauto|].
  destruct (schema_of tag); eauto.
Qed.




(** ** The mapping onto the canonical fields *)

Lemma first_section_with_none (key : str) (d : dict str) :
  (forall name, In name (keys d) -> is_substring key name = false) ->
  first_section_with key d = None.
Proof.
  induction d as [|[name body] d IH]; simpl; intros H; [reflexivity|].
  rewrite (H name) by (left; reflexivity).
  apply IH. intros n Hn. apply H. right. exact Hn.
Qed.

Lemma extract_section_none (d : dict str) (possible_keys : list str) :
  (forall key name, In key possible_keys -> In name (keys d) ->
                    is_substring key name = false) ->
  extract_section d possible_keys = [].
Proof.
  induction possible_keys as [|key rest IH]; simpl; intros H; [reflexivity|].
  rewrite first_section_with_none.
  - apply IH. intros k n Hk Hn. apply H; [right; exact Hk|exact Hn].
  - intros n Hn. apply H; [left; reflexivity|exact Hn].
Qed.

Lemma any_value_extract_none (sch : schema) (d : dict str) :
  no_synonym_matches sch d -> any_value (extract_fields sch d) = false.
Proof.
  unfold any_value, values, extract_fields. rewrite map_map. simpl.
  induction sch as [|[field possible_keys] sch IH]; intros H; simpl;
    [reflexivity|].
  rewrite extract_section_none.
  - apply IH. intros f pk k n Hf. apply (H f pk k n). right. exact Hf.
  - intros k n Hk Hn. apply (H field possible_keys k n); auto. left. reflexivity.
Qed.

Lemma as_values_raw_text_fields (sch : schema) (text : str) :
  as_values (raw_text_fields sch text)
  = match map fst sch with
    | [] => []
    | first :: others =>
        (first, VStr text) :: map (fun field => (field, VStr [])) others
    end.
Proof.
  destruct sch as [|p rest]; simpl; [reflexivity|].
  unfold as_values. simpl. f_equal. rewrite !map_map. reflexivity.
Qed.

Lemma no_heading_segment (lines : list str) :
  lines <> [] -> no_heading lines ->
  segment_lines lines = [(L "overview", join_lines lines)].
Proof.
  intros Hne Hno. unfold segment_lines.
  rewrite (run_lines_body initial_state Hno). unfold save_section. simpl.
  destruct lines; [congruence|reflexivity].
Qed.

Lemma add_keyword_sections_none (text : str) (d : dict str) (kw : str) :
  finditer kw text = [] -> add_keyword_sections text d kw = d.
Proof. unfold add_keyword_sections. intros ->. reflexivity. Qed.

Lemma fold_keywords_none (text : str) (kws : list str) (d : dict str) :
  (forall kw, In kw kws -> finditer kw text = []) ->
  fold_left (add_keyword_sections text) kws d = d.
Proof.
  revert d. induction kws as [|kw kws IH]; intros d H; simpl; [reflexivity|].
  rewrite add_keyword_sections_none by (apply H; left; reflexivity).
  apply IH. intros k Hk. apply H. right. exact Hk.
Qed.

Lemma no_synonym_matchesb_sound (sch : schema) (d : dict str) :
  no_synonym_matchesb sch d = true -> no_synonym_matches sch d.
Proof.
  unfold no_synonym_matchesb. intros H field pk key name Hf Hk Hn.
  rewrite forallb_forall in H. specialize (H _ Hf). simpl in H.
  rewrite forallb_forall in H. specialize (H _ Hk).
  rewrite forallb_forall in H. specialize (H _ Hn).
  apply negb_true_iff in H. exact H.
Qed.

(** C7.  When no possible key occurs in any section name, the text goes
    to the first canonical field and the other fields are empty; so it is
    for a text without heading and without keyword under PRR. *)
Theorem whole_text_goes_to_first_field :
  (forall (text tag : str) (sch : schema),
     text <> [] -> schema_of tag = Some sch ->
     no_synonym_matches sch (mapped_sections text (line_sections text)) ->
     exists first others,
       map fst sch = first :: others
       /\ parse_analysis_result text tag
          = Returns ((first, VStr text)
                     :: map (fun field => (field, VStr [])) others
                     ++ [(L "sections",
                          VDict (mapped_sections text (line_sections text)))]))
  /\ (forall text : str,
        text <> [] -> no_heading (split_lines text) ->
        (forall kw, In kw all_keywords -> finditer kw text = []) ->
        parse_analysis_result text PRR
        = Returns [ (L "executive_summary", VStr text);
                    (L "application_overview", VStr []);
                    (L "reliability_requirements", VStr []);
                    (L "risk_assessment", VStr []);
                    (L "observability_strategy", VStr []);
                    (L "destructive_testing_results", VStr []);
                    (L "incident_response", VStr []);
                    (L "reliability_roadmap", VStr []);
                    (L "sections", VDict []) ]).
Proof.
  split.
  - intros text tag sch Ht Hs Hno.
    rewrite (@parse_recognised text tag sch Ht Hs).
    unfold structured_fields. rewrite (any_value_extract_none Hno).
    rewrite as_values_raw_text_fields.
    destruct (schema_of_cases _ Hs) as [ -> | [ -> | -> ] ];
      eexists; eexists; (split; [reflexivity|reflexivity]).
  - intros text Ht Hno Hkw.
    rewrite (@parse_recognised text PRR prr_schema Ht eq_refl).
    assert (Hsec : mapped_sections text (line_sections text) = []).
    { unfold mapped_sections, line_sections.
      destruct (split_lines_cons text) as (l & ls & Hl).
      rewrite no_heading_segment; [|rewrite Hl; discriminate|exact Hno].
      simpl. unfold extract_sections_from_content.
      apply fold_keywords_none. exact Hkw. }
    rewrite Hsec. reflexivity.
Qed.

Lemma whole_text_goes_to_first_field_witness :
  (let text := L "NOTES:
first
MISC:
second" in
   exists first others,
     map fst prr_schema = first :: others
     /\ parse_analysis_result text PRR
        = Returns ((first, VStr text)
                   :: map (fun field => (field, VStr [])) others
                   ++ [(L "sections",
                        VDict (mapped_sections text (line_sections text)))]))
  /\ (let text := L "The system looks fine to us.
Nothing else to report." in
      parse_analysis_result text PRR
      = Returns [ (L "executive_summary", VStr text);
                  (L "application_overview", VStr []);
                  (L "reliability_requirements", VStr []);
                  (L "risk_assessment", VStr []);
                  (L "observability_strategy", VStr []);
                  (L "destructive_testing_results", VStr []);
                  (L "incident_response", VStr []);
                  (L "reliability_roadmap", VStr []);
                  (L "sections", VDict []) ]).
Proof.
  split; intros text.
  - apply (proj1 whole_text_goes_to_first_field text PRR prr_schema).
    + discriminate.
    + reflexivity.
    + apply no_synonym_matchesb_sound. vm_compute. reflexivity.
  - apply (proj2 whole_text_goes_to_first_field text).
    + discriminate.
    + vm_compute. repeat constructor.
    + intros kw Hkw. vm_compute in Hkw.
      repeat (destruct Hkw as [<-|Hkw]; [vm_compute; reflexivity|]).
      contradiction.
Defined.

(** ** The example of keyword lines *)

(** C6, as amended.  On the two-line example the line loop finds the one
    section overview, the keyword scan finds dependency and hypothesis
    with empty bodies, since the content shares the line of the keyword,
    and the text goes to the first field: [hypothesis_generation] is
    empty. *)
Theorem keyword_lines_example :
  let text := L "dependency: payment service calls auth service
hypothesis: auth outage causes payment failure
" in
  length (line_sections text) = 1
  /\ extract_sections_from_content text
     = [(L "dependency", []); (L "hypothesis", [])]
  /\ parse_analysis_result text DESTRUCTIVE_TESTING
     = Returns [ (L "dependency_analysis", VStr text);
                 (L "steady_state_definition", VStr []);
                 (L "hypothesis_generation", VStr []);
                 (L "experiment_design", VStr []);
                 (L "rumsfeld_matrix", VStr []);
                 (L "test_case_management", VStr []);
                 (L "blast_radius_analysis", VStr []);
                 (L "coverage", VStr []);
                 (L "sections",
                  VDict [(L "dependency", []); (L "hypothesis", [])]) ].
Proof.
  vm_compute. repeat split.
Qed.

(** C6 as stated fails: [hypothesis_generation] is the empty string. *)
Lemma keyword_lines_leave_hypothesis_empty :
  exists d,
    parse_analysis_result (L "dependency: payment service calls auth service
hypothesis: auth outage causes payment failure
") DESTRUCTIVE_TESTING = Returns d
    /\ dict_get d (L "hypothesis_generation") = Some (VStr []).
Proof.
  eexists. split; vm_compute; reflexivity.
Qed.

(** ** The keyword scan *)

Lemma index_nl_in (s : str) : index_nl s <> None <-> In nl s.
Proof.
  induction s as [|c s IH]; simpl.
  - split; [congruence|intros []].
  - destruct (is_nl c) eqn:E.
    + apply is_nl_true in E. split; [auto|discriminate].
    + destruct (index_nl s) as [j|].
      * split; [intros _; right; apply IH; discriminate|discriminate].
      * split; [congruence|]. intros [H|H].
        -- subst c. unfold is_nl in E. rewrite Ascii.eqb_refl in E. discriminate.
        -- apply IH in H. congruence.
Qed.

Lemma match_keyword_line_spec (kw s : str) :
  match_keyword_line kw s <> None
  <-> ci_prefix kw s = true /\ In nl (skipn (length kw) s).
Proof.
  unfold match_keyword_line. rewrite <- index_nl_in.
  destruct (ci_prefix kw s).
  - destruct (index_nl (skipn (length kw) s)); split; intros H;
      try (split; [reflexivity|]); try discriminate; try tauto.
  - split; [congruence|intros [H _]; discriminate].
Qed.

Lemma match_keyword_line_nil (kw : str) : match_keyword_line kw [] = None.
Proof.
  unfold match_keyword_line. destruct (ci_prefix kw []); [|reflexivity].
  rewrite skipn_nil. reflexivity.
Qed.

Lemma finditer_from_sound (kw s : str) (pos skip : nat) :
  finditer_from kw s pos skip <> [] ->
  exists p, match_keyword_line kw (skipn p s) <> None.
Proof.
  revert pos skip. induction s as [|c s IH]; intros pos skip H; simpl in H.
  - congruence.
  - destruct skip as [|k].
    + destruct (match_keyword_line kw (c :: s)) eqn:E.
      * exists 0. simpl. congruence.
      * destruct (IH _ _ H) as [p Hp]. exists (S p). exact Hp.
    + destruct (IH _ _ H) as [p Hp]. exists (S p). exact Hp.
Qed.

Lemma finditer_from_complete (kw s : str) (p pos : nat) :
  match_keyword_line kw (skipn p s) <> None ->
  finditer_from kw s pos 0 <> [].
Proof.
  revert p pos. induction s as [|c s IH]; intros p pos H.
  - rewrite skipn_nil, match_keyword_line_nil in H. congruence.
  - simpl. destruct (match_keyword_line kw (c :: s)) eqn:E; [discriminate|].
    destruct p as [|p]; [simpl in H; congruence|].
    apply (IH p). exact H.
Qed.

(** The scan for a keyword finds something exactly when the keyword is
    somewhere in the text with a line break after it. *)
Lemma finditer_occurs (kw text : str) :
  finditer kw text <> [] <-> exists p, keyword_occurs_at kw text p.
Proof.
  unfold keyword_occurs_at. split.
  - intros H. destruct (finditer_from_sound _ _ _ _ H) as [p Hp].
    exists p. apply match_keyword_line_spec in Hp.
    rewrite skipn_skipn in Hp. rewrite (Nat.add_comm p). exact Hp.
  - intros [p Hp]. apply (@finditer_from_complete kw text p 0).
    apply match_keyword_line_spec. rewrite skipn_skipn.
    rewrite (Nat.add_comm (length kw)). exact Hp.
Qed.

Lemma keys_add_matches (text key : str) (ms : list (nat * nat)) (d : dict str)
    (k : str) :
  In k (keys (fold_left
                (fun d m =>
                   dict_set d key
                     (strip (slice text (snd m) (section_end text (snd m)))))
                ms d))
  <-> In k (keys d) \/ (k = key /\ ms <> []).
Proof.
  revert d. induction ms as [|m ms IH]; intros d; simpl.
  - split; [auto|]. intros [H|[_ H]]; [exact H|congruence].
  - rewrite IH, keys_dict_set. split.
    + intros [[H|H]|[H _]]; auto; right; (split; [exact H|discriminate]).
    + intros [H|[H _]]; auto.
Qed.

Lemma keys_add_keyword_sections (text : str) (d : dict str) (kw k : str) :
  In k (keys (add_keyword_sections text d kw))
  <-> In k (keys d) \/ (k = keyword_key kw /\ finditer kw text <> []).
Proof. apply keys_add_matches. Qed.

Lemma keys_fold_keywords (text : str) (kws : list str) (d : dict str) (k : str) :
  In k (keys (fold_left (add_keyword_sections text) kws d))
  <-> In k (keys d)
      \/ exists kw, In kw kws /\ k = keyword_key kw /\ finditer kw text <> [].
Proof.
  revert d. induction kws as [|kw kws IH]; intros d; simpl.
  - split; [auto|]. intros [H|(kw & [] & _)]. exact H.
  - rewrite IH, keys_add_keyword_sections. split.
    + intros [[H|[H1 H2]]|(kw' & H1 & H2)]; eauto 6.
    + intros [H|(kw' & [<-|H1] & H2 & H3)]; eauto 6.
Qed.

Lemma keyword_key_inj (kw kw' : str) :
  In kw all_keywords -> In kw' all_keywords ->
  keyword_key kw = keyword_key kw' -> kw = kw'.
Proof.
  assert (Hinv : forall w, In w all_keywords -> key_keyword (keyword_key w) = w).
  { assert (Hb : forallb (fun w => str_eqb (key_keyword (keyword_key w)) w)
                         all_keywords = true) by (vm_compute; reflexivity).
    intros w Hw. apply str_eqb_eq.
    rewrite forallb_forall in Hb. apply Hb. exact Hw. }
  intros H H' E. rewrite <- (Hinv kw H), <- (Hinv kw' H'), E. reflexivity.
Qed.

(** C5, as amended.  A keyword of the vocabulary gives a section exactly
    when it occurs somewhere in the text, at the start of a line or inside
    one, in any case, with a line break somewhere after it. *)
Theorem keyword_section_iff_occurrence (text kw : str) :
  In kw all_keywords ->
  (dict_get (extract_sections_from_content text) (keyword_key kw) <> None
   <-> exists p, keyword_occurs_at kw text p).
Proof.
  intros Hkw. rewrite dict_get_in_keys. unfold extract_sections_from_content.
  rewrite keys_fold_keywords, <- finditer_occurs. split.
  - intros [[]|(kw' & Hin & Hkey & Hfound)].
    apply keyword_key_inj in Hkey; auto. subst kw'. exact Hfound.
  - intros H. right. exists kw. auto.
Qed.

Lemma keyword_section_iff_occurrence_witness :
  dict_get (extract_sections_from_content (L "we checked security today
all fine
")) (keyword_key (L "security")) <> None.
Proof.
  apply (@keyword_section_iff_occurrence (L "we checked security today
all fine
") (L "security")).
  - vm_compute. auto 10.
  - exists 11. split; [reflexivity|]. vm_compute. auto 10.
Defined.

(** C5 as stated fails: a keyword inside a line gives a section, although
    no line of the text starts with a keyword. *)
Lemma keyword_inside_line_gives_section :
  let text := L "we checked security today
all fine
" in
  extract_sections_from_content text = [(L "security", L "all fine")]
  /\ existsb (fun kw => keyword_starts_a_line kw text) all_keywords = false.
Proof.
  vm_compute. split; reflexivity.
Qed.

(** ** The name of a heading *)

Ltac by_cases_on_char c :=
  destruct c as [[] [] [] [] [] [] [] []]; vm_compute;
  try reflexivity; try discriminate; try congruence.

Lemma char_lower_space (c : ascii) : isspace (char_lower c) = isspace c.
Proof. by_cases_on_char c. Qed.

Lemma char_lower_not_hash (c : ascii) : c <> hash -> char_lower c <> hash.
Proof. by_cases_on_char c. Qed.

Lemma char_lower_not_colon (c : ascii) : c <> colon -> char_lower c <> colon.
Proof. by_cases_on_char c. Qed.

Lemma not_space_char (c : ascii) : isspace c = false -> Ascii.eqb c space = false.
Proof. by_cases_on_char c. Qed.

Lemma word_lower (w : str) : word w -> word (lower w).
Proof.
  unfold word, lower. intros H. apply Forall_map.
  eapply Forall_impl; [|exact H]. intros c Hc. simpl.
  rewrite char_lower_space. exact Hc.
Qed.

Lemma lower_repeat_space (k : nat) : lower (repeat space k) = repeat space k.
Proof. unfold lower. rewrite map_repeat. reflexivity. Qed.

Lemma lower_repeat_hash (k : nat) : lower (repeat hash k) = repeat hash k.
Proof. unfold lower. rewrite map_repeat. reflexivity. Qed.

Lemma replace_space_word (w : str) : word w -> replace_space w = w.
Proof.
  unfold word, replace_space. induction 1 as [|c w Hc _ IH]; simpl;
    [reflexivity|].
  rewrite (not_space_char _ Hc), IH. reflexivity.
Qed.

Lemma replace_space_repeat (k : nat) :
  replace_space (repeat space k) = repeat underscore k.
Proof. unfold replace_space. rewrite map_repeat. reflexivity. Qed.

Lemma replace_space_app (a b : str) :
  replace_space (a ++ b) = replace_space a ++ replace_space b.
Proof. apply map_app. Qed.

Lemma drop_while_repeat_space (k : nat) (s : str) :
  drop_while isspace (repeat space k ++ s) = drop_while isspace s.
Proof. induction k; simpl; [reflexivity|exact IHk]. Qed.

Lemma drop_while_repeat_hash (k : nat) (s : str) :
  drop_while is_hash (repeat hash k ++ s) = drop_while is_hash s.
Proof. induction k; simpl; [reflexivity|exact IHk]. Qed.

Lemma drop_while_stops (p : ascii -> bool) (c : ascii) (s : str) :
  p c = false -> drop_while p (c :: s) = c :: s.
Proof. intros H. simpl. rewrite H. reflexivity. Qed.

Lemma sub_trailing_colon_last (s : str) (e : ascii) :
  sub_trailing_colon (s ++ [e]) = if Ascii.eqb e colon then s else s ++ [e].
Proof.
  unfold sub_trailing_colon. rewrite rev_app_distr. simpl.
  destruct (Ascii.eqb e colon); [apply rev_involutive|reflexivity].
Qed.

Lemma after_markdown_no_hash (c : ascii) (s : str) :
  c <> hash -> after_markdown (c :: s) = None.
Proof.
  intros H. unfold after_markdown, is_hash.
  destruct (Ascii.eqb c hash) eqn:E; [|reflexivity].
  apply Ascii.eqb_eq in E. congruence.
Qed.

Lemma after_markdown_markers (j i : nat) (c : ascii) (s : str) :
  isspace c = false ->
  after_markdown (repeat hash (S j) ++ repeat space (S i) ++ c :: s)
  = Some (c :: s).
Proof.
  intros Hc. unfold after_markdown.
  change (repeat hash (S j) ++ repeat space (S i) ++ c :: s)
    with (hash :: (repeat hash j ++ space :: repeat space i ++ c :: s)).
  cbv beta iota. change (is_hash hash) with true. cbv iota.
  change (hash :: (repeat hash j ++ space :: repeat space i ++ c :: s))
    with (repeat hash (S j) ++ space :: repeat space i ++ c :: s).
  rewrite drop_while_repeat_hash.
  rewrite drop_while_stops by reflexivity.
  change (isspace space) with true. cbv iota.
  rewrite drop_while_repeat_space, drop_while_stops by exact Hc. reflexivity.
Qed.

(** The part of the line after the markers goes through the steps of
    [normalize] as follows. *)
Lemma normalize_words (u v : str) (k : nat) (with_colon : bool) :
  word u -> word v -> hd hash u <> hash -> last v colon <> colon ->
  replace_space
    (sub_trailing_colon
       (lower u ++ repeat space k ++ lower v ++ colon_if with_colon))
  = lower u ++ repeat underscore k ++ lower v.
Proof.
  intros Hu Hv _ Hlast.
  assert (Hbody : replace_space (lower u ++ repeat space k ++ lower v)
                  = lower u ++ repeat underscore k ++ lower v).
  { rewrite !replace_space_app, replace_space_repeat.
    rewrite !replace_space_word by (apply word_lower; assumption).
    reflexivity. }
  destruct with_colon; simpl colon_if.
  - replace (lower u ++ repeat space k ++ lower v ++ [colon])
      with ((lower u ++ repeat space k ++ lower v) ++ [colon])
      by (rewrite <- !app_assoc; reflexivity).
    rewrite sub_trailing_colon_last. rewrite Ascii.eqb_refl. exact Hbody.
  - rewrite app_nil_r.
    destruct (exists_last (l:=v)) as (v' & e & ->).
    { intros ->. simpl in Hlast. congruence. }
    rewrite last_last in Hlast.
    unfold lower at 2. rewrite map_app. simpl map. fold (lower v').
    replace (lower u ++ repeat space k ++ lower v' ++ [char_lower e])
      with ((lower u ++ repeat space k ++ lower v') ++ [char_lower e])
      by (rewrite <- !app_assoc; reflexivity).
    rewrite sub_trailing_colon_last.
    destruct (Ascii.eqb (char_lower e) colon) eqn:E.
    + apply Ascii.eqb_eq in E. exfalso.
      exact (char_lower_not_colon Hlast E).
    + rewrite <- !app_assoc. rewrite <- Hbody.
      unfold lower at 4. rewrite map_app. reflexivity.
Qed.

(** [strip] leaves a string that neither starts nor ends with white space. *)
Lemma lstrip_fixed (s : str) : isspace (hd space s) = false -> lstrip s = s.
Proof.
  destruct s as [|c s]; simpl; intros H; [reflexivity|].
  unfold lstrip. apply drop_while_stops. exact H.
Qed.

Lemma rstrip_fixed (s : str) : isspace (last s space) = false -> rstrip s = s.
Proof.
  intros H. destruct s as [|c s]; [reflexivity|].
  destruct (exists_last (l:=c :: s)) as (s' & e & E); [discriminate|].
  rewrite E in *. rewrite last_last in H.
  unfold rstrip. rewrite rev_unit, drop_while_stops by exact H.
  change (rev (e :: rev s')) with (rev (rev s') ++ [e]).
  rewrite rev_involutive. reflexivity.
Qed.

Lemma strip_unchanged (s : str) :
  isspace (hd space s) = false -> isspace (last s space) = false ->
  strip s = s.
Proof.
  intros Hh Hl. unfold strip. rewrite lstrip_fixed by exact Hh.
  apply rstrip_fixed. exact Hl.
Qed.

Lemma last_app_nonempty (a b : str) (d : ascii) :
  b <> [] -> last (a ++ b) d = last b d.
Proof.
  intros Hb. induction a as [|x a IH]; [reflexivity|].
  simpl. destruct (a ++ b) eqn:E; [|exact IH].
  apply app_eq_nil in E. destruct E. congruence.
Qed.

Lemma lower_colon_if (b : bool) : lower (colon_if b) = colon_if b.
Proof. destruct b; reflexivity. Qed.

Lemma lower_app (a b : str) : lower (a ++ b) = lower a ++ lower b.
Proof. apply map_app. Qed.

Lemma replace_space_length (x : str) : length (replace_space x) = length x.
Proof. apply length_map. Qed.

Lemma replace_space_no_space (x : str) : ~ In space (replace_space x).
Proof.
  induction x as [|c x IH]; simpl; [tauto|].
  intros [H|H]; [|exact (IH H)].
  destruct (Ascii.eqb c space) eqn:E; [discriminate|].
  apply Ascii.eqb_neq in E. congruence.
Qed.

Lemma replace_space_underscores (x : str) :
  count_occ ascii_dec (replace_space x) underscore
  = count_occ ascii_dec x space + count_occ ascii_dec x underscore.
Proof.
  induction x as [|c x IH]; simpl; [reflexivity|].
  destruct (Ascii.eqb c space) eqn:E.
  - apply Ascii.eqb_eq in E. subst c.
    destruct (ascii_dec underscore underscore); [|congruence].
    destruct (ascii_dec space space); [|congruence].
    destruct (ascii_dec space underscore); [discriminate|].
    rewrite IH. reflexivity.
  - apply Ascii.eqb_neq in E.
    destruct (ascii_dec c space); [congruence|].
    destruct (ascii_dec c underscore); rewrite IH; lia.
Qed.

Lemma replace_space_others (x : str) (a : ascii) :
  a <> space -> a <> underscore ->
  count_occ ascii_dec (replace_space x) a = count_occ ascii_dec x a.
Proof.
  intros Hs Hu. induction x as [|c x IH]; simpl; [reflexivity|].
  destruct (Ascii.eqb c space) eqn:E.
  - apply Ascii.eqb_eq in E. subst c.
    destruct (ascii_dec underscore a); [congruence|].
    destruct (ascii_dec space a); [congruence|]. exact IH.
  - destruct (ascii_dec c a); rewrite IH; reflexivity.
Qed.

(** C9, as amended.  The name of a line is its stripped, lower-case form
    without the markers and without one trailing colon, in which every
    space has become one underscore and nothing else has changed: no run
    is collapsed.  A heading made of markers, a word, [k] spaces, a word
    and possibly a colon gets the two words in lower case with [k]
    underscores between them. *)
Theorem heading_name_keeps_every_space :
  (forall line : str,
     let x := sub_trailing_colon (sub_markdown (lower (strip line))) in
     length (normalize line) = length x
     /\ ~ In space (normalize line)
     /\ count_occ ascii_dec (normalize line) underscore
        = count_occ ascii_dec x space + count_occ ascii_dec x underscore
     /\ forall a, a <> space -> a <> underscore ->
          count_occ ascii_dec (normalize line) a = count_occ ascii_dec x a)
  /\ (forall (j i k n : nat) (u v : str) (with_colon : bool),
        (j = 0 /\ i = 0) \/ (0 < j /\ 0 < i) ->
        word u -> word v -> hd hash u <> hash -> last v colon <> colon ->
        section_name (repeat hash j ++ repeat space i ++ u ++ repeat space k
                        ++ v ++ colon_if with_colon) n
        = lower u ++ repeat underscore k ++ lower v).
Proof.
  split.
  { intros line x. unfold normalize. fold x. split; [|split; [|split]].
    - apply replace_space_length.
    - apply replace_space_no_space.
    - apply replace_space_underscores.
    - intros a. apply replace_space_others. }
  intros j i k n u v with_colon Hm Hu Hv Hhd Hlast.
  destruct u as [|cu u']; [simpl in Hhd; congruence|]. simpl in Hhd.
  assert (Hcu : isspace cu = false) by (inversion Hu; assumption).
  assert (Hv' : v <> []) by (intros ->; simpl in Hlast; congruence).
  assert (Hlv : isspace (last v colon) = false).
  { destruct (exists_last Hv') as (v' & e & ->). rewrite last_last.
    apply Forall_app_r in Hv. inversion Hv; assumption. }
  set (line := repeat hash j ++ repeat space i ++ (cu :: u') ++ repeat space k
                 ++ v ++ colon_if with_colon).
  assert (Hstrip : strip line = line).
  { apply strip_unchanged.
    - unfold line. destruct Hm as [[-> ->]|[Hj Hi]].
      + simpl. exact Hcu.
      + destruct j; [lia|]. reflexivity.
    - unfold line. rewrite !app_assoc. destruct with_colon; simpl colon_if.
      + rewrite last_last. reflexivity.
      + rewrite app_nil_r. rewrite last_app_nonempty by exact Hv'.
        destruct (exists_last Hv') as (v' & e & ->).
        rewrite last_last in *. exact Hlv. }
  assert (Hlow : lower line
                 = repeat hash j ++ repeat space i ++ lower (cu :: u')
                     ++ repeat space k ++ lower v ++ colon_if with_colon).
  { unfold line. rewrite !lower_app, lower_repeat_hash, !lower_repeat_space,
      lower_colon_if. reflexivity. }
  assert (Hmd : sub_markdown (lower line)
                = lower (cu :: u') ++ repeat space k ++ lower v
                    ++ colon_if with_colon).
  { rewrite Hlow. unfold sub_markdown. destruct Hm as [[-> ->]|[Hj Hi]].
    - cbn [repeat app lower map]. rewrite after_markdown_no_hash; [reflexivity|].
      apply char_lower_not_hash. exact Hhd.
    - destruct j as [|j']; [lia|]. destruct i as [|i']; [lia|].
      change (lower (cu :: u') ++ repeat space k ++ lower v ++ colon_if with_colon)
        with (char_lower cu :: lower u' ++ repeat space k ++ lower v
                ++ colon_if with_colon).
      rewrite after_markdown_markers; [reflexivity|].
      rewrite char_lower_space. exact Hcu. }
  assert (Hnorm : normalize line
                  = lower (cu :: u') ++ repeat underscore k ++ lower v).
  { unfold normalize. rewrite Hstrip, Hmd.
    apply normalize_words; auto. }
  unfold section_name. fold line. rewrite Hnorm. reflexivity.
Qed.

Lemma heading_name_keeps_every_space_witness :
  is_heading (L "## RISK  ASSESSMENT:") = true
  /\ section_name (L "## RISK  ASSESSMENT:") 0 = L "risk__assessment".
Proof.
  split; [reflexivity|].
  apply (proj2 heading_name_keeps_every_space
               2 1 2 0 (L "RISK") (L "ASSESSMENT") true).
  - right. split; repeat constructor.
  - repeat constructor.
  - repeat constructor.
  - discriminate.
  - discriminate.
Defined.

(** C9 as stated fails: two spaces between the words of a heading give
    two underscores, where one run of white space was to give one. *)
Lemma two_spaces_give_two_underscores :
  is_heading (L "RISK  ASSESSMENT") = true
  /\ section_name (L "RISK  ASSESSMENT") 0 = L "risk__assessment"
  /\ spec_normalize (L "RISK  ASSESSMENT") = L "risk_assessment"
  /\ section_name (L "RISK  ASSESSMENT") 0 <> spec_normalize (L "RISK  ASSESSMENT").
Proof.
  vm_compute. repeat split. discriminate.
Qed.

(** * Further properties of the extraction *)

(** ** What the line loop stores *)

Lemma in_dict_set {V} (d : dict V) (k : str) (v : V) (p : str * V) :
  In p (dict_set d k v) -> p = (k, v) \/ In p d.
Proof.
  induction d as [|[k0 v0] d IH]; simpl.
  - intros [H|[]]. left. congruence.
  - destruct (str_eqb k k0) eqn:E; simpl.
    + apply str_eqb_eq in E. subst k0. intros [H|H]; [left; congruence|auto].
    + intros [H|H]; [auto|]. destruct (IH H); auto.
Qed.

Lemma in_set_all (ws : list (str * str)) (d : dict str) (p : str * str) :
  In p (set_all d ws) -> In p d \/ In p ws.
Proof.
  revert d. induction ws as [|[k v] ws IH]; intros d H; [auto|].
  change (set_all d ((k, v) :: ws)) with (set_all (dict_set d k v) ws) in H.
  destruct (IH _ H) as [H'|H']; [|right; right; exact H'].
  destruct (in_dict_set _ _ _ _ H') as [->|H'']; [right; left; reflexivity|auto].
Qed.

(** Every body saved by the loop is the join of a block of consecutive
    lines, none of them a heading. *)
Lemma saves_are_blocks (lines : list str) (st : seg_state) (p : str * str) :
  no_heading (current_content st) ->
  In p (saves_from st lines) ->
  exists pre b post,
    current_content st ++ lines = pre ++ b ++ post
    /\ b <> [] /\ no_heading b /\ snd p = join_lines b.
Proof.
  revert st. induction lines as [|line rest IH]; intros st Hc Hin.
  - simpl in Hin. unfold pending in Hin.
    destruct (current_content st) as [|l ls] eqn:E; [contradiction|].
    destruct Hin as [<-|[]]. exists [], (l :: ls), []. simpl.
    rewrite !app_nil_r. repeat split; [discriminate|exact Hc].
  - simpl in Hin. apply in_app_or in Hin. unfold seg_step in Hin.
    destruct (is_heading line) eqn:Eh.
    + destruct Hin as [Hin|Hin].
      * unfold pending in Hin.
        destruct (current_content st) as [|l ls] eqn:E; [contradiction|].
        destruct Hin as [<-|[]]. exists [], (l :: ls), (line :: rest). simpl.
        repeat split; [discriminate|exact Hc].
      * apply IH in Hin; [|constructor].
        destruct Hin as (pre & b & post & E & Hb & Hnb & Hv). simpl in E.
        exists (current_content st ++ line :: pre), b, post.
        rewrite E, <- app_assoc. simpl. auto.
    + destruct Hin as [[]|Hin].
      apply IH in Hin.
      * destruct Hin as (pre & b & post & E & Hb & Hnb & Hv). simpl in E.
        exists pre, b, post. rewrite <- E, <- app_assoc. simpl. auto.
      * simpl. apply Forall_app. split; [exact Hc|].
        constructor; [exact Eh|constructor].
Qed.

Lemma join_lines_app (a b : list str) :
  a <> [] -> b <> [] -> join_lines (a ++ b) = join_lines a ++ nl :: join_lines b.
Proof.
  intros Ha Hb. induction a as [|x a IH]; [congruence|].
  destruct a as [|y a].
  - simpl. destruct b; [congruence|reflexivity].
  - change (join_lines ((x :: y :: a) ++ b))
      with (x ++ nl :: join_lines ((y :: a) ++ b)).
    rewrite IH by discriminate.
    change (join_lines (x :: y :: a)) with (x ++ nl :: join_lines (y :: a)).
    rewrite <- app_assoc. reflexivity.
Qed.

Lemma join_block_piece (pre b post : list str) :
  piece_of (join_lines b) (join_lines (pre ++ b ++ post)).
Proof.
  unfold piece_of. destruct b as [|b0 b].
  - exists [], (join_lines (pre ++ post)). reflexivity.
  - assert (Hright : exists after,
               join_lines ((b0 :: b) ++ post) = join_lines (b0 :: b) ++ after).
    { destruct post as [|q0 post].
      - exists []. rewrite !app_nil_r. reflexivity.
      - exists (nl :: join_lines (q0 :: post)).
        apply join_lines_app; discriminate. }
    destruct Hright as [after Hafter].
    destruct pre as [|p0 pre].
    + exists [], after. exact Hafter.
    + exists (join_lines (p0 :: pre) ++ [nl]), after.
      rewrite join_lines_app; [|discriminate|destruct b; discriminate].
      rewrite Hafter, <- app_assoc. reflexivity.
Qed.

Lemma segment_entry_block (text name body : str) :
  In (name, body) (segment_lines (split_lines text)) ->
  exists pre b post,
    split_lines text = pre ++ b ++ post
    /\ b <> [] /\ no_heading b /\ body = join_lines b
    /\ piece_of body text.
Proof.
  intros Hin. unfold segment_lines in Hin. rewrite save_run_saves in Hin.
  apply in_set_all in Hin. destruct Hin as [[]|Hin].
  destruct (@saves_are_blocks (split_lines text) initial_state (name, body))
    as (pre & b & post & E & Hb & Hnb & Hv); [constructor|exact Hin|].
  simpl in E, Hv. exists pre, b, post. repeat split; auto.
  rewrite <- (join_split text). rewrite E, Hv. apply join_block_piece.
Qed.

(** X1.  Every section of the line loop holds a block of consecutive
    lines of the text, none of them a heading, joined as they were. *)
Theorem sections_hold_blocks_of_lines (text name body : str) :
  In (name, body) (segment_lines (split_lines text)) ->
  exists pre b post,
    split_lines text = pre ++ b ++ post
    /\ b <> [] /\ no_heading b /\ body = join_lines b
    /\ piece_of body text.
Proof. apply segment_entry_block. Qed.

Lemma sections_hold_blocks_of_lines_witness :
  exists pre b post,
    split_lines (L "intro
NOTES:
first
second
RISKS:
third") = pre ++ b ++ post
    /\ b <> [] /\ no_heading b /\ L "first
second" = join_lines b
    /\ piece_of (L "first
second") (L "intro
NOTES:
first
second
RISKS:
third").
Proof.
  apply (@sections_hold_blocks_of_lines _ (L "notes")).
  vm_compute. auto.
Defined.

Lemma no_heading_forallb (lines : list str) :
  forallb (fun line => negb (is_heading line)) lines = true -> no_heading lines.
Proof.
  intros H. apply Forall_forall. intros line Hl.
  rewrite forallb_forall in H. apply negb_true_iff. apply H. exact Hl.
Qed.

(** X2.  A text without any heading line comes back whole as the one
    section overview. *)
Theorem text_without_heading_is_overview (text : str) :
  no_heading (split_lines text) ->
  line_sections text = [(overview, text)].
Proof.
  intros H. unfold line_sections.
  destruct (split_lines_cons text) as (l & ls & E).
  rewrite no_heading_segment; [|rewrite E; discriminate|exact H].
  rewrite join_split. reflexivity.
Qed.

Lemma text_without_heading_is_overview_witness :
  line_sections (L "first line
second line
") = [(overview, L "first line
second line
")].
Proof.
  apply text_without_heading_is_overview.
  apply no_heading_forallb. vm_compute. reflexivity.
Defined.

Lemma line_count_pos (body : str) : 1 <= line_count body.
Proof.
  unfold line_count. destruct (split_lines_cons body) as (l & ls & ->).
  simpl. lia.
Qed.

Lemma set_all_not_nil (ws : list (str * str)) (d : dict str) :
  d <> [] -> set_all d ws <> [].
Proof.
  revert d. induction ws as [|[k v] ws IH]; intros d H; [exact H|].
  apply (IH (dict_set d k v)). apply dict_set_not_nil.
Qed.

Lemma segment_empty_iff_only_headings (text : str) :
  segment_lines (split_lines text) = []
  <-> forall line, In line (split_lines text) -> is_heading line = true.
Proof.
  pose proof (saves_account initial_state (split_lines_nl_free text)
                (Forall_nil _)) as Hacc.
  simpl in Hacc. unfold segment_lines. rewrite save_run_saves. simpl sections.
  destruct (saves_from initial_state (split_lines text)) as [|[k v] ws] eqn:E.
  - split; [|reflexivity]. intros _.
    apply filter_all_length. change (body_lines []) with 0 in Hacc. exact Hacc.
  - split.
    + intros H. exfalso. revert H.
      change (set_all [] ((k, v) :: ws)) with (set_all (dict_set [] k v) ws).
      apply set_all_not_nil. apply dict_set_not_nil.
    + intros H. exfalso.
      assert (Hall : length (filter is_heading (split_lines text))
                     = length (split_lines text)).
      { clear - H. induction (split_lines text) as [|l ls IH]; [reflexivity|].
        simpl. rewrite (H l) by (left; reflexivity). simpl. f_equal.
        apply IH. intros x Hx. apply H. right. exact Hx. }
      unfold body_lines in Hacc. simpl in Hacc.
      pose proof (line_count_pos v). lia.
Qed.

(** X3.  The entry full_text, holding the whole text, is what the loop
    leaves exactly when every line of the text is a heading. *)
Theorem full_text_iff_only_headings (text : str) :
  (forall line, In line (split_lines text) -> is_heading line = true)
  <-> line_sections text = [(L "full_text", text)].
Proof.
  rewrite <- segment_empty_iff_only_headings. unfold line_sections. split.
  - intros ->. reflexivity.
  - destruct (segment_lines (split_lines text)) as [|p d] eqn:E; [reflexivity|].
    intros H. exfalso. inversion H; subst p d. clear H.
    destruct (@segment_entry_block text (L "full_text") text)
      as (pre & b & post & Hs & Hb & Hnb & Hj & _).
    { rewrite E. left. reflexivity. }
    assert (Hfree : Forall nl_free b).
    { pose proof (split_lines_nl_free text) as F. rewrite Hs in F.
      apply Forall_app_r in F. apply Forall_app_l in F. exact F. }
    assert (Hlines : split_lines text = b).
    { rewrite Hj at 1. apply split_join; assumption. }
    assert (Hov : segment_lines (split_lines text)
                  = [(L "overview", join_lines b)]).
    { rewrite Hlines. apply no_heading_segment; assumption. }
    rewrite E in Hov. discriminate.
Qed.

Lemma full_text_iff_only_headings_witness :
  line_sections (L "SECURITY
# Risks") = [(L "full_text", L "SECURITY
# Risks")].
Proof.
  apply full_text_iff_only_headings.
  intros line Hl. vm_compute in Hl.
  destruct Hl as [<-|[<-|[]]]; reflexivity.
Defined.

(** ** The names of the sections *)

Lemma char_lower_not_AZ (c : ascii) : is_AZ (char_lower c) = false.
Proof. by_cases_on_char c. Qed.

Lemma Forall_drop_while (P : ascii -> Prop) (p : ascii -> bool) (s : str) :
  Forall P s -> Forall P (drop_while p s).
Proof.
  induction 1 as [|c s Hc Hs IH]; simpl; [constructor|].
  destruct (p c); [exact IH|constructor; assumption].
Qed.

Lemma Forall_sub_markdown (P : ascii -> Prop) (s : str) :
  Forall P s -> Forall P (sub_markdown s).
Proof.
  intros H. unfold sub_markdown, after_markdown.
  destruct s as [|c s']; [exact H|].
  destruct (is_hash c); [|exact H].
  pose proof (Forall_drop_while is_hash H) as Hd.
  destruct (drop_while is_hash (c :: s')) as [|d r]; [exact H|].
  destruct (isspace d); [|exact H].
  apply Forall_drop_while. inversion Hd; assumption.
Qed.

Lemma Forall_sub_trailing_colon (P : ascii -> Prop) (s : str) :
  Forall P s -> Forall P (sub_trailing_colon s).
Proof.
  intros H. unfold sub_trailing_colon.
  pose proof (Forall_rev H) as Hr.
  destruct (rev s) as [|c r]; [exact H|].
  destruct (Ascii.eqb c colon); [|exact H].
  apply Forall_rev. inversion Hr; assumption.
Qed.

Lemma normalize_no_AZ (line : str) :
  Forall (fun c => is_AZ c = false) (normalize line).
Proof.
  unfold normalize, replace_space. apply Forall_map.
  assert (H : Forall (fun c => is_AZ c = false)
                (sub_trailing_colon (sub_markdown (lower (strip line))))).
  { apply Forall_sub_trailing_colon, Forall_sub_markdown.
    unfold lower. apply Forall_map. apply Forall_forall.
    intros c _. apply char_lower_not_AZ. }
  eapply Forall_impl; [|exact H]. intros c Hc. simpl.
  destruct (Ascii.eqb c space); [reflexivity|exact Hc].
Qed.

Lemma uint_digits_plain (d : Decimal.uint) :
  Forall (fun c => c <> space /\ is_AZ c = false)
         (list_ascii_of_string (NilEmpty.string_of_uint d)).
Proof.
  induction d; simpl;
    [ constructor
    | constructor;
      [ split; [intros H; vm_compute in H; discriminate|reflexivity]
      | assumption ] .. ].
Qed.

Lemma str_of_nat_plain (n : nat) :
  Forall (fun c => c <> space /\ is_AZ c = false) (str_of_nat n).
Proof.
  unfold str_of_nat, L, NilZero.string_of_uint.
  destruct (Nat.to_uint n) eqn:E; try apply uint_digits_plain.
  simpl. constructor; [|constructor].
  split; [intros H; vm_compute in H; discriminate|reflexivity].
Qed.

Lemma section_name_tidy (line : str) (n : nat) : tidy_name (section_name line n).
Proof.
  unfold section_name. destruct (normalize line) as [|c r] eqn:E.
  - pose proof (str_of_nat_plain n) as H. repeat split.
    + discriminate.
    + intros Hin. apply in_app_or in Hin. destruct Hin as [Hin|Hin].
      * vm_compute in Hin. intuition discriminate.
      * rewrite Forall_forall in H. destruct (H _ Hin) as [Hs _]. congruence.
    + apply Forall_app. split.
      * vm_compute. repeat constructor.
      * eapply Forall_impl; [|exact H]. intros a [_ Ha]. exact Ha.
  - rewrite <- E. repeat split.
    + rewrite E. discriminate.
    + unfold normalize. apply replace_space_no_space.
    + apply normalize_no_AZ.
Qed.

Lemma saves_names_tidy (lines : list str) (st : seg_state) (p : str * str) :
  tidy_name (current_section st) ->
  In p (saves_from st lines) -> tidy_name (fst p).
Proof.
  revert st. induction lines as [|line rest IH]; intros st Hc Hin.
  - simpl in Hin. unfold pending in Hin.
    destruct (current_content st); [contradiction|].
    destruct Hin as [<-|[]]. exact Hc.
  - simpl in Hin. apply in_app_or in Hin. destruct Hin as [Hin|Hin].
    + destruct (is_heading line); [|contradiction].
      unfold pending in Hin. destruct (current_content st); [contradiction|].
      destruct Hin as [<-|[]]. exact Hc.
    + apply (IH (seg_step st line)); [|exact Hin].
      unfold seg_step. destruct (is_heading line); simpl;
        [apply section_name_tidy|exact Hc].
Qed.

(** X4.  Every name in the dictionary of the line loop is not empty and
    holds neither a space nor a letter of [[A-Z]]. *)
Theorem section_names_are_tidy (text name : str) :
  In name (keys (line_sections text)) -> tidy_name name.
Proof.
  assert (Hfix : forall s, (exists c r, s = c :: r) ->
                   ~ In space s -> Forall (fun c => is_AZ c = false) s ->
                   tidy_name s).
  { intros s (c & r & ->) H1 H2. repeat split; [discriminate|exact H1|exact H2]. }
  unfold line_sections.
  destruct (segment_lines (split_lines text)) as [|q d] eqn:E.
  - intros [<-|[]]. vm_compute. repeat split; try discriminate.
    + intuition discriminate.
    + repeat constructor.
  - rewrite <- E. unfold keys. rewrite in_map_iff.
    intros ([k v] & Hk & Hin). simpl in Hk. subst k.
    unfold segment_lines in Hin. rewrite save_run_saves in Hin.
    apply in_set_all in Hin. destruct Hin as [[]|Hin].
    apply (@saves_names_tidy (split_lines text) initial_state (name, v));
      [|exact Hin].
    vm_compute. repeat split; try discriminate.
    + intuition discriminate.
    + repeat constructor.
Qed.

Lemma section_names_are_tidy_witness :
  tidy_name (L "executive__summary").
Proof.
  apply (@section_names_are_tidy (L "intro
## EXECUTIVE  Summary:
text") (L "executive__summary")).
  vm_compute. auto.
Defined.

(** ** [extract_section] *)

Lemma first_section_with_found (key : str) (d1 d2 : dict str) (name body : str) :
  (forall n, In n (keys d1) -> is_substring key n = false) ->
  is_substring key name = true ->
  first_section_with key (d1 ++ (name, body) :: d2) = Some body.
Proof.
  induction d1 as [|[n b] d1 IH]; simpl; intros Hno Hyes.
  - rewrite Hyes. reflexivity.
  - rewrite (Hno n) by (left; reflexivity).
    apply IH; [|exact Hyes]. intros n' Hn'. apply Hno. right. exact Hn'.
Qed.

Lemma extract_section_skip (d : dict str) (ks1 ks2 : list str) :
  (forall key name, In key ks1 -> In name (keys d) ->
                    is_substring key name = false) ->
  extract_section d (ks1 ++ ks2) = extract_section d ks2.
Proof.
  induction ks1 as [|k ks1 IH]; simpl; intros H; [reflexivity|].
  rewrite first_section_with_none.
  - apply IH. intros key name Hk Hn. apply H; [right; exact Hk|exact Hn].
  - intros name Hn. apply H; [left; reflexivity|exact Hn].
Qed.

(** X5.  [extract_section] answers with the first possible key that
    occurs in some section name, and for that key with the first such
    section in the order of the dictionary: an earlier key wins over a
    later key even when the later key matches an earlier section. *)
Theorem extract_section_first_key_first_section
    (d1 d2 : dict str) (name body : str) (ks1 ks2 : list str) (key : str) :
  (forall k n, In k ks1 -> In n (keys (d1 ++ (name, body) :: d2)) ->
               is_substring k n = false) ->
  (forall n, In n (keys d1) -> is_substring key n = false) ->
  is_substring key name = true ->
  extract_section (d1 ++ (name, body) :: d2) (ks1 ++ key :: ks2) = body.
Proof.
  intros Hearlier Hbefore Hmatch.
  rewrite extract_section_skip by exact Hearlier.
  simpl. rewrite first_section_with_found by assumption. reflexivity.
Qed.

Lemma extract_section_first_key_first_section_witness :
  extract_section
    ([(L "intro", L "a")] ++ (L "security_review", L "b")
       :: [(L "components", L "c"); (L "security", L "d")])
    ([L "reliability"] ++ L "security" :: [L "components"])
  = L "b".
Proof.
  apply extract_section_first_key_first_section.
  - intros k n [<-|[]] Hn. vm_compute in Hn.
    destruct Hn as [<-|[<-|[<-|[<-|[]]]]]; reflexivity.
  - intros n [<-|[]]. reflexivity.
  - reflexivity.
Defined.

(** ** The bodies of the keyword scan *)

Lemma piece_of_refl (s : str) : piece_of s s.
Proof. exists [], []. rewrite app_nil_r. reflexivity. Qed.

Lemma piece_of_nil (text : str) : piece_of [] text.
Proof. exists [], text. reflexivity. Qed.

Lemma piece_of_trans (a b c : str) : piece_of a b -> piece_of b c -> piece_of a c.
Proof.
  intros (x & y & ->) (u & v & ->).
  exists (u ++ x), (y ++ v). rewrite <- !app_assoc. reflexivity.
Qed.

Lemma drop_while_suffix (p : ascii -> bool) (s : str) :
  exists w, s = w ++ drop_while p s.
Proof.
  induction s as [|c s IH]; simpl; [exists []; reflexivity|].
  destruct (p c); [|exists []; reflexivity].
  destruct IH as [w Hw]. exists (c :: w). simpl. f_equal. exact Hw.
Qed.

Lemma drop_while_idem (p : ascii -> bool) (s : str) :
  drop_while p (drop_while p s) = drop_while p s.
Proof.
  induction s as [|c s IH]; simpl; [reflexivity|].
  destruct (p c) eqn:E; [exact IH|]. simpl. rewrite E. reflexivity.
Qed.

Lemma drop_while_head (p : ascii -> bool) (s : str) (c : ascii) (r : str) :
  drop_while p s = c :: r -> p c = false.
Proof.
  induction s as [|x s IH]; simpl; [discriminate|].
  destruct (p x) eqn:E; [exact IH|]. intros H. inversion H; subst. exact E.
Qed.

Lemma rstrip_prefix (s : str) : exists w, s = rstrip s ++ w.
Proof.
  unfold rstrip. destruct (drop_while_suffix isspace (rev s)) as [w Hw].
  exists (rev w). rewrite <- rev_app_distr, <- Hw, rev_involutive. reflexivity.
Qed.

Lemma rstrip_idem (s : str) : rstrip (rstrip s) = rstrip s.
Proof.
  unfold rstrip. rewrite rev_involutive, drop_while_idem. reflexivity.
Qed.

Lemma lstrip_rstrip_lstrip (s : str) :
  lstrip (rstrip (lstrip s)) = rstrip (lstrip s).
Proof.
  unfold lstrip. set (t := drop_while isspace s).
  destruct (rstrip_prefix t) as [w Hw].
  destruct (rstrip t) as [|c r] eqn:E; [reflexivity|].
  unfold t in Hw. simpl in Hw. apply drop_while_head in Hw.
  simpl. rewrite Hw. reflexivity.
Qed.

Lemma strip_idem (s : str) : strip (strip s) = strip s.
Proof.
  unfold strip. rewrite lstrip_rstrip_lstrip. apply rstrip_idem.
Qed.

Lemma strip_piece (s : str) : piece_of (strip s) s.
Proof.
  unfold strip, lstrip.
  destruct (drop_while_suffix isspace s) as [a Ha].
  destruct (rstrip_prefix (drop_while isspace s)) as [b Hb].
  exists a, b. rewrite <- Hb. exact Ha.
Qed.

Lemma slice_piece (text : str) (i j : nat) : piece_of (slice text i j) text.
Proof.
  unfold slice. exists (firstn i text), (skipn (j - i) (skipn i text)).
  rewrite firstn_skipn, firstn_skipn. reflexivity.
Qed.

Lemma in_add_matches (text key : str) (ms : list (nat * nat)) (d : dict str)
    (p : str * str) :
  In p (fold_left
          (fun d m =>
             dict_set d key
               (strip (slice text (snd m) (section_end text (snd m)))))
          ms d) ->
  In p d \/ exists m, In m ms /\
                      p = (key, strip (slice text (snd m) (section_end text (snd m)))).
Proof.
  revert d. induction ms as [|m ms IH]; intros d H; simpl in H; [auto|].
  destruct (IH _ H) as [H'|(m' & Hm' & E)].
  - destruct (in_dict_set _ _ _ _ H') as [->|H'']; [|auto].
    right. exists m. split; [left; reflexivity|reflexivity].
  - right. exists m'. split; [right; exact Hm'|exact E].
Qed.

Lemma in_fold_keywords (text : str) (kws : list str) (d : dict str)
    (p : str * str) :
  In p (fold_left (add_keyword_sections text) kws d) ->
  In p d \/ exists kw m, In kw kws /\ In m (finditer kw text) /\
       p = (keyword_key kw,
            strip (slice text (snd m) (section_end text (snd m)))).
Proof.
  revert d. induction kws as [|kw kws IH]; intros d H; simpl in H; [auto|].
  destruct (IH _ H) as [H'|(kw' & m & Hk & Hm & E)].
  - destruct (in_add_matches _ _ _ _ _ H') as [H''|(m & Hm & E)]; [auto|].
    right. exists kw, m. split; [left; reflexivity|]. split; assumption.
  - right. exists kw', m. split; [right; exact Hk|]. split; assumption.
Qed.

(** X6.  Every section of the keyword scan is named after a keyword of
    the vocabulary, and its body is a contiguous piece of the text with
    no white space at either end. *)
Theorem keyword_sections_are_stripped_pieces (text name body : str) :
  In (name, body) (extract_sections_from_content text) ->
  (exists kw, In kw all_keywords /\ name = keyword_key kw)
  /\ strip body = body
  /\ piece_of body text.
Proof.
  intros H. unfold extract_sections_from_content in H.
  apply in_fold_keywords in H. destruct H as [[]|(kw & m & Hk & Hm & E)].
  inversion E; subst name body. split; [|split].
  - exists kw. split; [exact Hk|reflexivity].
  - apply strip_idem.
  - eapply piece_of_trans; [apply strip_piece|apply slice_piece].
Qed.

Lemma keyword_sections_are_stripped_pieces_witness :
  (exists kw, In kw all_keywords /\ L "security" = keyword_key kw)
  /\ strip (L "all fine") = L "all fine"
  /\ piece_of (L "all fine") (L "Security:
   all fine
").
Proof.
  apply keyword_sections_are_stripped_pieces. vm_compute. auto.
Defined.

Lemma finditer_needs_newline (kw text : str) :
  ~ In nl text -> finditer kw text = [].
Proof.
  intros Hno. destruct (finditer kw text) as [|m ms] eqn:E; [reflexivity|].
  exfalso. assert (H : finditer kw text <> []) by (rewrite E; discriminate).
  apply finditer_occurs in H. destruct H as [p [_ Hin]].
  apply Hno. revert Hin. generalize (p + length kw). intros n.
  clear E m ms. revert text Hno.
  induction n as [|n IH]; intros text Hno Hin; [exact Hin|].
  destruct text as [|c text]; [exact Hin|].
  simpl in Hin. right. apply IH; [|exact Hin].
  intros H. apply Hno. right. exact H.
Qed.

Lemma extract_fields_empty_dict (sch : schema) :
  any_value (extract_fields sch []) = false.
Proof.
  apply any_value_extract_none. intros f pk k n _ _ [].
Qed.

(** X7.  A text of one line, without a line break, gives the keyword scan
    nothing to find; under a recognised report type it goes whole to the
    first field, the other fields are empty and so is the dictionary of
    sections, whether the line is a heading or not. *)
Theorem one_line_text_goes_to_first_field (text tag : str) (sch : schema) :
  text <> [] -> ~ In nl text -> schema_of tag = Some sch ->
  extract_sections_from_content text = []
  /\ exists first others,
       map fst sch = first :: others
       /\ parse_analysis_result text tag
          = Returns ((first, VStr text)
                     :: map (fun field => (field, VStr [])) others
                     ++ [(L "sections", VDict [])]).
Proof.
  intros Ht Hno Hs.
  assert (Hscan : extract_sections_from_content text = []).
  { unfold extract_sections_from_content. apply fold_keywords_none.
    intros kw _. apply finditer_needs_newline. exact Hno. }
  split; [exact Hscan|].
  assert (Hmapped : mapped_sections text (line_sections text) = []).
  { unfold mapped_sections, line_sections.
    rewrite (split_nl_free_line Hno). unfold segment_lines. simpl.
    unfold seg_step. destruct (is_heading text); simpl; exact Hscan. }
  rewrite (@parse_recognised text tag sch Ht Hs), Hmapped.
  unfold structured_fields. rewrite extract_fields_empty_dict.
  rewrite as_values_raw_text_fields.
  destruct (schema_of_cases _ Hs) as [ -> | [ -> | -> ] ];
    eexists; eexists; (split; [reflexivity|reflexivity]).
Qed.

Lemma one_line_text_goes_to_first_field_witness :
  extract_sections_from_content (L "SECURITY: all good") = []
  /\ exists first others,
       map fst system_analysis_schema = first :: others
       /\ parse_analysis_result (L "SECURITY: all good") SYSTEM_ANALYSIS
          = Returns ((first, VStr (L "SECURITY: all good"))
                     :: map (fun field => (field, VStr [])) others
                     ++ [(L "sections", VDict [])]).
Proof.
  apply one_line_text_goes_to_first_field.
  - discriminate.
  - vm_compute. intuition discriminate.
  - reflexivity.
Defined.

(** ** Nothing in the result is invented *)

Lemma line_sections_piece (text name body : str) :
  In (name, body) (line_sections text) -> piece_of body text.
Proof.
  unfold line_sections.
  destruct (segment_lines (split_lines text)) as [|q d] eqn:E.
  - intros [H|[]]. inversion H. apply piece_of_refl.
  - rewrite <- E. intros H.
    destruct (segment_entry_block _ _ _ H) as (_ & _ & _ & _ & _ & _ & _ & Hp).
    exact Hp.
Qed.

Lemma keyword_sections_piece (text name body : str) :
  In (name, body) (extract_sections_from_content text) -> piece_of body text.
Proof.
  intros H. unfold extract_sections_from_content in H.
  apply in_fold_keywords in H. destruct H as [[]|(kw & m & _ & _ & E)].
  inversion E. eapply piece_of_trans; [apply strip_piece|apply slice_piece].
Qed.

Lemma mapped_sections_piece (text name body : str) :
  In (name, body) (mapped_sections text (line_sections text)) ->
  piece_of body text.
Proof.
  unfold mapped_sections. destruct (length (line_sections text) <=? 1).
  - apply keyword_sections_piece.
  - apply line_sections_piece.
Qed.

Lemma first_section_with_in (key : str) (d : dict str) (body : str) :
  first_section_with key d = Some body -> exists name, In (name, body) d.
Proof.
  induction d as [|[n b] d IH]; simpl; [discriminate|].
  destruct (is_substring key n).
  - intros H. inversion H; subst. exists n. left. reflexivity.
  - intros H. destruct (IH H) as [name Hn]. exists name. right. exact Hn.
Qed.

Lemma extract_section_in (d : dict str) (possible_keys : list str) :
  extract_section d possible_keys = []
  \/ exists name, In (name, extract_section d possible_keys) d.
Proof.
  induction possible_keys as [|key rest IH]; simpl; [left; reflexivity|].
  destruct (first_section_with key d) as [body|] eqn:E; [|exact IH].
  right. apply first_section_with_in with (key := key). exact E.
Qed.

Lemma structured_fields_in (sch : schema) (d : dict str) (text field s : str) :
  In (field, s) (structured_fields sch d text) ->
  s = [] \/ s = text \/ exists name, In (name, s) d.
Proof.
  unfold structured_fields. destruct (any_value (extract_fields sch d)).
  - unfold extract_fields. rewrite in_map_iff. intros (p & E & _).
    inversion E. destruct (extract_section_in d (snd p)) as [H|H]; auto.
  - unfold raw_text_fields. destruct sch as [|p rest]; [intros []|].
    intros [H|H]; [inversion H; auto|].
    apply in_map_iff in H. destruct H as (q & E & _). inversion E. auto.
Qed.

Lemma in_as_values (d : dict str) (k : str) (v : pyval) :
  In (k, v) (as_values d) -> exists s, v = VStr s /\ In (k, s) d.
Proof.
  unfold as_values. rewrite in_map_iff. intros ([k' s] & E & H).
  inversion E; subst. exists s. auto.
Qed.

(** X8.  For a text that is not empty, every string of the returned
    dictionary, be it a field or the body of a section listed under
    sections, is a contiguous piece of the text: nothing is invented. *)
Theorem result_holds_pieces_of_text (text tag : str) (d : dict pyval) :
  text <> [] -> parse_analysis_result text tag = Returns d ->
  (forall k s, In (k, VStr s) d -> piece_of s text)
  /\ (forall k secs name body,
        In (k, VDict secs) d -> In (name, body) secs -> piece_of body text).
Proof.
  intros Ht Hd. destruct text as [|c text]; [congruence|].
  unfold parse_analysis_result in Hd.
  destruct (schema_of tag) as [sch|]; inversion Hd; subst d; clear Hd.
  - split.
    + intros k s H. apply in_dict_set in H. destruct H as [H|H]; [discriminate|].
      apply in_as_values in H. destruct H as (s' & E & H). inversion E; subst s'.
      apply structured_fields_in in H. destruct H as [->|[->|[name H]]].
      * apply piece_of_nil.
      * apply piece_of_refl.
      * apply (mapped_sections_piece _ _ _ H).
    + intros k secs name body H Hin. apply in_dict_set in H.
      destruct H as [H|H].
      * inversion H; subst. apply (mapped_sections_piece _ _ _ Hin).
      * apply in_as_values in H. destruct H as (s' & E & _). discriminate.
  - split.
    + intros k s [H|[H|[]]]; [|discriminate].
      inversion H. apply piece_of_refl.
    + intros k secs name body [H|[H|[]]] Hin; [discriminate|].
      inversion H; subst. apply (line_sections_piece _ _ _ Hin).
Qed.

Lemma result_holds_pieces_of_text_witness :
  piece_of (L "TLS everywhere.")
           (L "ARCHITECTURE:
We use a load balancer.
SECURITY:
TLS everywhere.").
Proof.
  set (text := L "ARCHITECTURE:
We use a load balancer.
SECURITY:
TLS everywhere.").
  assert (H : exists d, parse_analysis_result text SYSTEM_ANALYSIS = Returns d
                        /\ In (L "security", VStr (L "TLS everywhere.")) d).
  { eexists. split; [vm_compute; reflexivity|].
    do 3 right. left. reflexivity. }
  destruct H as (d & Hd & Hin).
  assert (Ht : text <> []) by discriminate.
  exact (proj1 (@result_holds_pieces_of_text text SYSTEM_ANALYSIS d Ht Hd) _ _ Hin).
Defined.

(** ** Where the body of a keyword ends *)

Lemma search_from_bound (kw s : str) (pos p : nat) :
  search_from kw s pos = Some p -> pos <= p < pos + length s.
Proof.
  revert pos. induction s as [|c s IH]; intros pos; simpl; [discriminate|].
  destruct (match_keyword_line kw (c :: s)).
  - intros H. inversion H. lia.
  - intros H. apply IH in H. lia.
Qed.

Lemma nearest_match (text : str) (start_pos : nat) (kws : list str) (n e : nat) :
  e = fold_left
        (fun end_pos next_keyword =>
           match search next_keyword text start_pos with
           | Some p => if p <? end_pos then p else end_pos
           | None => end_pos
           end) kws n ->
  e <= n
  /\ (forall kw p, In kw kws -> search kw text start_pos = Some p -> e <= p)
  /\ (e = n \/ exists kw, In kw kws /\ search kw text start_pos = Some e).
Proof.
  intros ->. revert n. induction kws as [|kw kws IH]; intros n.
  - simpl. split; [lia|]. split; [intros kw p []|left; reflexivity].
  - cbn [fold_left].
    set (n' := match search kw text start_pos with
               | Some p => if p <? n then p else n
               | None => n
               end).
    destruct (IH n') as (H1 & H2 & H3).
    assert (Hn' : n' <= n /\ (forall p, search kw text start_pos = Some p -> n' <= p)
                  /\ (n' = n \/ search kw text start_pos = Some n')).
    { unfold n'. destruct (search kw text start_pos) as [p|].
      - destruct (p <? n) eqn:E.
        + apply Nat.ltb_lt in E. repeat split; [lia| |auto].
          intros q Hq. inversion Hq. lia.
        + apply Nat.ltb_ge in E. repeat split; [lia| |auto].
          intros q Hq. inversion Hq. lia.
      - repeat split; [lia| |auto]. intros q Hq. discriminate. }
    destruct Hn' as (Ha & Hb & Hc).
    split; [lia|]. split.
    + intros k p [<-|Hk] Hs.
      * specialize (Hb p Hs). lia.
      * apply (H2 k p Hk Hs).
    + destruct H3 as [H3|(k & Hk & Hs)].
      * destruct Hc as [Hc|Hc].
        -- left. lia.
        -- right. exists kw. split; [left; reflexivity|]. rewrite H3. exact Hc.
      * right. exists k. split; [right; exact Hk|exact Hs].
Qed.

(** X9.  The body of a keyword match runs to the nearest following match
    of any keyword of the vocabulary, or to the end of the text when
    there is none: the end is never past the start of such a match, it is
    one of them or the end of the text, and it is not before the start of
    the body. *)
Theorem body_ends_at_nearest_keyword (text : str) (start_pos : nat) :
  section_end text start_pos <= length text
  /\ (forall kw p, In kw all_keywords ->
        search kw text start_pos = Some p -> section_end text start_pos <= p)
  /\ (section_end text start_pos = length text
      \/ exists kw, In kw all_keywords
           /\ search kw text start_pos = Some (section_end text start_pos))
  /\ (start_pos <= length text -> start_pos <= section_end text start_pos).
Proof.
  pose proof (fun e => @nearest_match text start_pos all_keywords
                         (length text) e) as Hnear.
  unfold section_end. specialize (Hnear _ eq_refl).
  destruct Hnear as (H1 & H2 & H3).
  split; [exact H1|]. split; [exact H2|]. split; [exact H3|].
  intros Hs. destruct H3 as [H3|(kw & _ & Hk)]; [rewrite H3; exact Hs|].
  unfold search in Hk. apply search_from_bound in Hk.
  destruct Hk as [Hk _]. exact Hk.
Qed.

Lemma body_ends_at_nearest_keyword_witness :
  section_end (L "security
a
b
coverage
c
") 9 <= 13.
Proof.
  apply (proj1 (proj2 (body_ends_at_nearest_keyword (L "security
a
b
coverage
c
") 9)) (L "coverage") 13).
  - unfold all_keywords. apply in_or_app. right. apply in_or_app. left.
    do 8 right. left. reflexivity.
  - vm_compute. reflexivity.
Defined.

(** * The layers above the parser *)

(** ** [analyze_diagram_all] *)

Lemma analyze_diagram_io_cases (opens : attempt unit)
    (generate : prompt -> attempt str) (tag : str) (chosen : prompt) :
  select_prompt tag = Returns chosen ->
  (exists text structured,
     opens = Value tt /\ generate chosen = Value text
     /\ parse_analysis_result text tag = Returns structured
     /\ analyze_diagram_io opens generate tag
        = Value (mk_analysis text structured))
  \/ (exists r, (opens = Raise r \/ (opens = Value tt /\ generate chosen = Raise r))
                /\ analyze_diagram_io opens generate tag = Raise r).
Proof.
  intros Hp. unfold analyze_diagram_io. rewrite Hp.
  destruct opens as [[]|r]; simpl.
  - destruct (generate chosen) as [text|r] eqn:Eg; simpl.
    + destruct (parse_returns text tag) as [d Hd]. rewrite Hd. simpl.
      left. exists text, d. auto.
    + right. exists r. auto.
  - right. exists r. auto.
Qed.

Lemma analyze_diagram_all_cases (opens : attempt unit)
    (generate : prompt -> attempt str) :
  (forall results,
     analyze_diagram_all opens generate = Value results ->
     opens = Value tt
     /\ exists t1 t2 t3 s1 s2 s3,
          generate SYSTEM_ANALYSIS_PROMPT = Value t1
          /\ generate DESTRUCTIVE_TESTING_PROMPT = Value t2
          /\ generate PRR_PROMPT = Value t3
          /\ parse_analysis_result t1 SYSTEM_ANALYSIS = Returns s1
          /\ parse_analysis_result t2 DESTRUCTIVE_TESTING = Returns s2
          /\ parse_analysis_result t3 PRR = Returns s3
          /\ results = [ (SYSTEM_ANALYSIS, mk_analysis t1 s1);
                         (DESTRUCTIVE_TESTING, mk_analysis t2 s2);
                         (PRR, mk_analysis t3 s3) ])
  /\ (forall r,
        analyze_diagram_all opens generate = Raise r ->
        opens = Raise r
        \/ generate SYSTEM_ANALYSIS_PROMPT = Raise r
        \/ generate DESTRUCTIVE_TESTING_PROMPT = Raise r
        \/ generate PRR_PROMPT = Raise r).
Proof.
  unfold analyze_diagram_all. cbn [fold_left and_then].
  destruct (@analyze_diagram_io_cases opens generate SYSTEM_ANALYSIS _ eq_refl)
    as [(t1 & s1 & Ho & Hg1 & Hp1 & E1)|(r1 & Hr1 & E1)];
    rewrite E1; cbn [and_then].
  2:{ split; [discriminate|]. intros r H. inversion H; subst r.
      destruct Hr1 as [Hr1|[_ Hr1]]; auto. }
  destruct (@analyze_diagram_io_cases opens generate DESTRUCTIVE_TESTING _ eq_refl)
    as [(t2 & s2 & _ & Hg2 & Hp2 & E2)|(r2 & Hr2 & E2)];
    rewrite E2; cbn [and_then].
  2:{ split; [discriminate|]. intros r H. inversion H; subst r.
      destruct Hr2 as [Hr2|[_ Hr2]]; auto. }
  destruct (@analyze_diagram_io_cases opens generate PRR _ eq_refl)
    as [(t3 & s3 & _ & Hg3 & Hp3 & E3)|(r3 & Hr3 & E3)];
    rewrite E3; cbn [and_then].
  2:{ split; [discriminate|]. intros r H. inversion H; subst r.
      destruct Hr3 as [Hr3|[_ Hr3]]; auto. }
  split; [|discriminate].
  intros results H. inversion H; subst results. split; [exact Ho|].
  exists t1, t2, t3, s1, s2, s3. repeat split; auto.
Qed.

(** X10.  [analyze_diagram_all] gives all three analyses or none.  When
    it returns, the image opened and the three remote calls answered, and
    the result holds the three analyses in the order system analysis,
    destructive testing, PRR.  When it fails, the failure is the one of
    the image or of a remote call, never the error for an unsupported
    type. *)
Theorem analyze_diagram_all_or_nothing (opens : attempt unit)
    (generate : prompt -> attempt str) :
  (forall results,
     analyze_diagram_all opens generate = Value results ->
     opens = Value tt
     /\ exists t1 t2 t3 s1 s2 s3,
          generate SYSTEM_ANALYSIS_PROMPT = Value t1
          /\ generate DESTRUCTIVE_TESTING_PROMPT = Value t2
          /\ generate PRR_PROMPT = Value t3
          /\ parse_analysis_result t1 SYSTEM_ANALYSIS = Returns s1
          /\ parse_analysis_result t2 DESTRUCTIVE_TESTING = Returns s2
          /\ parse_analysis_result t3 PRR = Returns s3
          /\ results = [ (SYSTEM_ANALYSIS, mk_analysis t1 s1);
                         (DESTRUCTIVE_TESTING, mk_analysis t2 s2);
                         (PRR, mk_analysis t3 s3) ])
  /\ (forall r,
        analyze_diagram_all opens generate = Raise r ->
        opens = Raise r
        \/ generate SYSTEM_ANALYSIS_PROMPT = Raise r
        \/ generate DESTRUCTIVE_TESTING_PROMPT = Raise r
        \/ generate PRR_PROMPT = Raise r).
Proof. apply analyze_diagram_all_cases. Qed.

Lemma analyze_diagram_all_or_nothing_witness :
  exists results,
    analyze_diagram_all (Value tt) (fun _ : prompt => Value (L "fine")) = Value results
    /\ keys results = [SYSTEM_ANALYSIS; DESTRUCTIVE_TESTING; PRR].
Proof.
  destruct (analyze_diagram_all (Value tt) (fun _ : prompt => Value (L "fine")))
    as [results|r] eqn:E.
  - exists results. split; [reflexivity|].
    destruct (proj1 (analyze_diagram_all_or_nothing _ _) results E)
      as (_ & t1 & t2 & t3 & s1 & s2 & s3 & _ & _ & _ & _ & _ & _ & Hr).
    rewrite Hr. reflexivity.
  - vm_compute in E. discriminate E.
Defined.

(** ** [routers/analysis.py]: the dictionary of results *)

Lemma dict_get_in {V} (d : dict V) (k : str) (v : V) :
  dict_get d k = Some v -> In (k, v) d.
Proof.
  induction d as [|[k0 v0] d IH]; simpl; [discriminate|].
  destruct (str_eqb k k0) eqn:E.
  - apply str_eqb_eq in E. subst k0. intros H. inversion H. left. reflexivity.
  - intros H. right. apply IH. exact H.
Qed.

Lemma in_keys {V} (d : dict V) (k : str) (v : V) : In (k, v) d -> In k (keys d).
Proof. intros H. unfold keys. apply in_map_iff. exists (k, v). auto. Qed.

Lemma in_dict_get {V} (d : dict V) (k : str) (v : V) :
  NoDup (keys d) -> In (k, v) d -> dict_get d k = Some v.
Proof.
  induction d as [|[k0 v0] d IH]; simpl; intros Hnd Hin; [contradiction|].
  inversion Hnd as [|? ? Hk Hnd']; subst.
  destruct Hin as [H|H].
  - inversion H; subst. rewrite str_eqb_refl. reflexivity.
  - destruct (str_eqb k k0) eqn:E.
    + apply str_eqb_eq in E. subst k0. exfalso. apply Hk.
      apply in_keys with (v := v). exact H.
    + apply IH; assumption.
Qed.

Lemma in_dict_del {V} (d : dict V) (k : str) (p : str * V) :
  In p (dict_del d k) -> In p d.
Proof.
  induction d as [|[k0 v0] d IH]; simpl; [auto|].
  destruct (str_eqb k k0); [auto|]. intros [H|H]; auto.
Qed.

Lemma NoDup_keys_del {V} (d : dict V) (k : str) :
  NoDup (keys d) -> NoDup (keys (dict_del d k)).
Proof.
  induction d as [|[k0 v0] d IH]; simpl; intros H; [constructor|].
  inversion H as [|? ? Hk Hnd]; subst.
  destruct (str_eqb k k0); [exact Hnd|]. simpl. constructor; [|apply IH; exact Hnd].
  intros Hin. apply Hk. unfold keys in *. apply in_map_iff in Hin.
  destruct Hin as (p & E & Hp). apply in_map_iff. exists p.
  split; [exact E|]. apply in_dict_del with (k := k). exact Hp.
Qed.

Lemma NoDup_keys_set {V} (d : dict V) (k : str) (v : V) :
  NoDup (keys d) -> NoDup (keys (dict_set d k v)).
Proof.
  induction d as [|[k0 v0] d IH]; simpl; intros H.
  - constructor; [intros []|constructor].
  - inversion H as [|? ? Hk Hnd]; subst.
    destruct (str_eqb k k0) eqn:E; simpl.
    + constructor; assumption.
    + constructor; [|apply IH; exact Hnd].
      intros Hin. apply keys_dict_set in Hin. destruct Hin as [Hin|Hin].
      * subst k0. rewrite str_eqb_refl in E. discriminate.
      * exact (Hk Hin).
Qed.

Lemma dict_get_del_same {V} (d : dict V) (k : str) :
  NoDup (keys d) -> dict_get (dict_del d k) k = None.
Proof.
  induction d as [|[k0 v0] d IH]; simpl; intros H; [reflexivity|].
  inversion H as [|? ? Hk Hnd]; subst.
  destruct (str_eqb k k0) eqn:E.
  - apply str_eqb_eq in E. subst k0.
    destruct (dict_get d k) eqn:G; [|reflexivity].
    exfalso. apply Hk. apply in_keys with (v := v). apply dict_get_in. exact G.
  - simpl. rewrite E. apply IH. exact Hnd.
Qed.

Lemma dict_get_del_other {V} (d : dict V) (k k' : str) :
  k' <> k -> dict_get (dict_del d k) k' = dict_get d k'.
Proof.
  intros Hne. induction d as [|[k0 v0] d IH]; simpl; [reflexivity|].
  destruct (str_eqb k k0) eqn:E.
  - apply str_eqb_eq in E. subst k0. apply str_eqb_neq in Hne. rewrite Hne.
    reflexivity.
  - simpl. rewrite IH. reflexivity.
Qed.

Lemma keyed_set (d : dict AnalysisResult) (r : AnalysisResult) :
  keyed_by_id d -> keyed_by_id (dict_set d (result_id r) r).
Proof.
  intros [Hk Hnd]. split.
  - intros k r' Hin. apply in_dict_set in Hin. destruct Hin as [E|Hin].
    + inversion E; subst. reflexivity.
    + apply Hk. exact Hin.
  - apply NoDup_keys_set. exact Hnd.
Qed.

Lemma keyed_del (d : dict AnalysisResult) (k : str) :
  keyed_by_id d -> keyed_by_id (dict_del d k).
Proof.
  intros [Hk Hnd]. split.
  - intros k' r Hin. apply Hk. apply in_dict_del with (k := k). exact Hin.
  - apply NoDup_keys_del. exact Hnd.
Qed.

Lemma store_all_results (results : dict analysis) (s : server) (up : upload)
    (path : str) (desc : option str) (user : str)
    (acc : dict AnalysisResult) :
  keyed_by_id (analysis_results s) ->
  keyed_by_id
    (analysis_results
       (snd (fold_left
               (fun acc item =>
                  let analysis_id := new_id up ++ L "_" ++ fst item in
                  let analysis_result :=
                    mk_AnalysisResult analysis_id user (fst item) (or_empty desc)
                      (filename up) path (snd item) (timestamp up) (timestamp up) in
                  (dict_set (fst acc) (fst item) analysis_result,
                   store_result (snd acc) analysis_result))
               results (acc, s)))).
Proof.
  revert s acc. induction results as [|item results IH]; intros s acc H.
  - exact H.
  - cbn [fold_left]. apply IH. cbn [snd store_result analysis_results].
    apply keyed_set. exact H.
Qed.

Lemma reachable_keyed (s : server) :
  reachable s -> keyed_by_id (analysis_results s).
Proof.
  induction 1 as [fs|hs s up tag desc user opens generate _ IH
                  |hs s up desc user opens generate _ IH
                  |s id user _ IH].
  - split; [intros k r []|constructor].
  - unfold create_analysis.
    destruct (negb (is_prefix (L "image/") (content_type up))); [exact IH|].
    destruct (analyze_diagram_io opens generate tag); cbn [snd].
    + cbn [store_result analysis_results]. apply keyed_set. exact IH.
    + exact IH.
  - unfold create_all_analysis.
    destruct (negb (is_prefix (L "image/") (content_type up))); [exact IH|].
    destruct (analyze_diagram_all opens generate); cbn [snd].
    + unfold store_all. apply store_all_results. exact IH.
    + exact IH.
  - unfold delete_analysis.
    destruct (dict_get (analysis_results s) id) as [r|]; [|exact IH].
    destruct (negb (str_eqb (user_id r) user)); [exact IH|].
    cbn [snd analysis_results]. apply keyed_del. exact IH.
Qed.

(** X11.  In every state the server can reach, each stored analysis is
    filed under its own identifier and no identifier is filed twice. *)
Theorem results_are_filed_under_their_id (s : server) :
  reachable s -> keyed_by_id (analysis_results s).
Proof. apply reachable_keyed. Qed.

Lemma results_are_filed_under_their_id_witness :
  keyed_by_id
    (analysis_results
       (snd (create_analysis (fun _ d => d) (mk_server [] [])
               (mk_upload (L "image/png") (L "a.png") (L ".png") (L "id1") (L "now"))
               PRR None (L "ann") (Value tt) (fun _ => Value (L "fine"))))).
Proof.
  apply results_are_filed_under_their_id.
  apply reach_create. apply reach_start.
Defined.

Lemma in_list_analysis (s : server) (user : str) (r : AnalysisResult) :
  In r (list_analysis s user)
  <-> (exists k, In (k, r) (analysis_results s)) /\ user_id r = user.
Proof.
  unfold list_analysis, values. rewrite filter_In, in_map_iff, str_eqb_eq.
  split.
  - intros [([k r'] & E & H) Hu]. simpl in E. subst r'. eauto.
  - intros [[k H] Hu]. split; [|exact Hu]. exists (k, r). auto.
Qed.

Lemma get_analysis_value (s : server) (id user : str) (r : AnalysisResult) :
  get_analysis s id user = Value r
  <-> dict_get (analysis_results s) id = Some r /\ user_id r = user.
Proof.
  unfold get_analysis. destruct (dict_get (analysis_results s) id) as [r'|].
  - destruct (str_eqb (user_id r') user) eqn:E; simpl.
    + apply str_eqb_eq in E. split.
      * intros H. inversion H; subst. auto.
      * intros [H _]. inversion H. reflexivity.
    + apply str_eqb_neq in E. split; [discriminate|].
      intros [H Hu]. inversion H; subst. congruence.
  - split; [discriminate|intros [H _]; discriminate].
Qed.

(** X12.  In every state the server can reach, the analyses that
    [list_analysis] shows to a user are exactly those that [get_analysis]
    hands to that user under their own identifier. *)
Theorem list_agrees_with_get (s : server) (user : str) (r : AnalysisResult) :
  reachable s ->
  (In r (list_analysis s user)
   <-> get_analysis s (result_id r) user = Value r).
Proof.
  intros Hs. destruct (reachable_keyed Hs) as [Hk Hnd].
  rewrite in_list_analysis, get_analysis_value. split.
  - intros [[k Hin] Hu]. split; [|exact Hu].
    apply in_dict_get; [exact Hnd|]. rewrite (Hk _ _ Hin). exact Hin.
  - intros [Hg Hu]. split; [|exact Hu].
    exists (result_id r). apply dict_get_in. exact Hg.
Qed.

Lemma list_agrees_with_get_witness :
  let s := snd (create_analysis (fun _ d => d) (mk_server [] [])
                  (mk_upload (L "image/png") (L "a.png") (L ".png") (L "id1") (L "now"))
                  PRR None (L "ann") (Value tt) (fun _ => Value (L "fine"))) in
  exists r,
    In r (list_analysis s (L "ann"))
    /\ get_analysis s (result_id r) (L "ann") = Value r.
Proof.
  intros s.
  destruct (list_analysis s (L "ann")) as [|r l] eqn:E;
    [vm_compute in E; discriminate E|].
  assert (Hin : In r (list_analysis s (L "ann")))
    by (rewrite E; left; reflexivity).
  exists r. split; [left; reflexivity|].
  apply (proj1 (@list_agrees_with_get s (L "ann") r
                  (reach_create _ _ _ _ _ _ _ (reach_start [])))).
  exact Hin.
Defined.

(** ** Deleting *)

Lemma exists_after_remove (fs : list str) (p q : str) :
  os_path_exists (os_remove fs q) p
  = os_path_exists fs p && negb (str_eqb q p).
Proof.
  unfold os_path_exists, os_remove.
  induction fs as [|f fs IH]; simpl; [reflexivity|].
  destruct (str_eqb q f) eqn:E; simpl.
  - apply str_eqb_eq in E. subst f. rewrite IH.
    destruct (str_eqb p q) eqn:E'.
    + apply str_eqb_eq in E'. subst q. rewrite str_eqb_refl. simpl.
      rewrite andb_false_r. reflexivity.
    + reflexivity.
  - rewrite IH. destruct (str_eqb p f) eqn:E'; [|reflexivity].
    apply str_eqb_eq in E'. subst f. rewrite E. reflexivity.
Qed.

Lemma exists_after_remove_if (fs : list str) (p q : str) :
  os_path_exists (remove_if_exists fs q) p
  = os_path_exists fs p && negb (str_eqb q p).
Proof.
  unfold remove_if_exists. destruct (os_path_exists fs q) eqn:E.
  - apply exists_after_remove.
  - destruct (str_eqb q p) eqn:E'; simpl.
    + apply str_eqb_eq in E'. subst q. rewrite E. reflexivity.
    + rewrite andb_true_r. reflexivity.
Qed.

Lemma exists_after_write (fs : list str) (p q : str) :
  os_path_exists (write_file fs q) p = os_path_exists fs p || str_eqb p q.
Proof.
  unfold write_file. destruct (os_path_exists fs q) eqn:E.
  - destruct (str_eqb p q) eqn:E'; [|rewrite orb_false_r; reflexivity].
    apply str_eqb_eq in E'. subst q. rewrite E. reflexivity.
  - unfold os_path_exists. rewrite existsb_app. simpl.
    rewrite orb_false_r. reflexivity.
Qed.

(** X13.  In a state the server can reach, once [delete_analysis] has
    succeeded the analysis is gone for every user, its diagram and its
    result file no longer exist, and every other analysis answers as
    before.  A refused deletion changes nothing. *)
Theorem delete_removes_one_analysis (s : server) (analysis_id user : str) :
  reachable s ->
  let out := delete_analysis s analysis_id user in
  (fst out = Value tt ->
   (forall other, get_analysis (snd out) analysis_id other
                  = Raise (HTTPException 404 (L "Analysis not found")))
   /\ (forall id' other, id' <> analysis_id ->
         get_analysis (snd out) id' other = get_analysis s id' other)
   /\ (forall r, dict_get (analysis_results s) analysis_id = Some r ->
         os_path_exists (files (snd out)) (file_path r) = false)
   /\ os_path_exists (files (snd out)) (result_path analysis_id) = false)
  /\ (fst out <> Value tt -> snd out = s).
Proof.
  intros Hs. destruct (reachable_keyed Hs) as [_ Hnd].
  unfold delete_analysis.
  destruct (dict_get (analysis_results s) analysis_id) as [r|] eqn:G; cbn zeta.
  - destruct (negb (str_eqb (user_id r) user)); cbn [fst snd].
    + split; [discriminate|reflexivity].
    + split; [|congruence]. intros _. repeat split.
      * intros other. unfold get_analysis. cbn [analysis_results].
        rewrite dict_get_del_same by exact Hnd. reflexivity.
      * intros id' other Hne. unfold get_analysis. cbn [analysis_results].
        rewrite dict_get_del_other by exact Hne. reflexivity.
      * intros r' E. inversion E; subst r'. cbn [files].
        rewrite !exists_after_remove_if, str_eqb_refl. simpl.
        rewrite andb_false_r. reflexivity.
      * cbn [files]. rewrite exists_after_remove_if, str_eqb_refl. simpl.
        apply andb_false_r.
  - cbn [fst snd]. split; [discriminate|reflexivity].
Qed.

Lemma delete_removes_one_analysis_witness :
  let s := snd (create_analysis (fun _ d => d) (mk_server [] [])
                  (mk_upload (L "image/png") (L "a.png") (L ".png") (L "id1") (L "now"))
                  PRR None (L "ann") (Value tt) (fun _ => Value (L "fine"))) in
  get_analysis (snd (delete_analysis s (L "id1") (L "ann"))) (L "id1") (L "ann")
  = Raise (HTTPException 404 (L "Analysis not found")).
Proof.
  intros s.
  apply (proj1 (proj1 (@delete_removes_one_analysis s (L "id1") (L "ann")
                         (reach_create _ _ _ _ _ _ _ (reach_start [])))
                      eq_refl)).
Defined.

(** ** Exporting *)

(** X14.  [export_analysis] hands out what [get_analysis] hands out, and
    only for the formats json, pdf and md in any case: all three give the
    same stored record.  An unknown identifier is answered with 404 and a
    foreign analysis with 403 whatever the format; a format outside the
    three is answered with 400 only to the owner. *)
Theorem export_follows_get (s : server) (analysis_id format user : str) :
  (forall r,
     export_analysis s analysis_id format user = Value r
     <-> get_analysis s analysis_id user = Value r
         /\ In (lower format) export_formats)
  /\ (forall code detail,
        get_analysis s analysis_id user = Raise (HTTPException code detail) ->
        exists detail',
          export_analysis s analysis_id format user
          = Raise (HTTPException code detail'))
  /\ (forall r,
        get_analysis s analysis_id user = Value r ->
        ~ In (lower format) export_formats ->
        exists detail,
          export_analysis s analysis_id format user
          = Raise (HTTPException 400 detail)).
Proof.
  assert (Hin : existsb (str_eqb (lower format)) export_formats = true
                <-> In (lower format) export_formats).
  { rewrite existsb_exists. split.
    - intros (x & Hx & E). apply str_eqb_eq in E. subst x. exact Hx.
    - intros H. exists (lower format). split; [exact H|apply str_eqb_refl]. }
  unfold export_analysis, get_analysis.
  destruct (dict_get (analysis_results s) analysis_id) as [r0|].
  - destruct (negb (str_eqb (user_id r0) user)).
    + split; [|split].
      * intros r. split; [discriminate|intros [H _]; discriminate].
      * intros code detail H. inversion H. eauto.
      * intros r H. discriminate.
    + destruct (existsb (str_eqb (lower format)) export_formats) eqn:E; simpl.
      * split; [|split].
        -- intros r. split; [intros H; split; [exact H|apply Hin; reflexivity]
                            |intros [H _]; exact H].
        -- intros code detail H. discriminate.
        -- intros r _ Hno. exfalso. apply Hno. apply Hin. reflexivity.
      * split; [|split].
        -- intros r. split; [discriminate|].
           intros [_ H]. apply Hin in H. discriminate.
        -- intros code detail H. discriminate.
        -- intros r _ _. eauto.
  - split; [|split].
    + intros r. split; [discriminate|intros [H _]; discriminate].
    + intros code detail H. inversion H. eauto.
    + intros r H. discriminate.
Qed.

Lemma export_follows_get_witness :
  let s := snd (create_analysis (fun _ d => d) (mk_server [] [])
                  (mk_upload (L "image/png") (L "a.png") (L ".png") (L "id1") (L "now"))
                  PRR None (L "ann") (Value tt) (fun _ => Value (L "fine"))) in
  exists detail,
    export_analysis s (L "id1") (L "PDF") (L "bob")
    = Raise (HTTPException 403 detail).
Proof.
  intros s.
  apply (proj1 (proj2 (@export_follows_get s (L "id1") (L "PDF") (L "bob")))
               403 (L "Not authorized to access this analysis")).
  vm_compute. reflexivity.
Defined.

(** ** Creating *)


(** ** Creating *)

Lemma create_analysis_refused (hs : nat -> str -> str) (s : server) (up : upload)
    (tag : str) (desc : option str) (user : str)
    (opens : attempt unit) (generate : prompt -> attempt str) :
  is_prefix (L "image/") (content_type up) = false ->
  create_analysis hs s up tag desc user opens generate
  = (Raise (HTTPException 400 (L "File must be an image")), s).
Proof. intros H. unfold create_analysis. rewrite H. reflexivity. Qed.

(** X15.  A request to [create_analysis] that fails leaves no trace: a
    file that is not an image is refused with 400 and the server is as
    before; when the analysis fails the answer is 500 with the text of
    the failure, the dictionary of results is as before and the uploaded
    diagram is removed again, the other files being untouched. *)
Theorem failed_creation_leaves_no_trace (hs : nat -> str -> str) (s : server)
    (up : upload) (tag : str) (desc : option str) (user : str)
    (opens : attempt unit) (generate : prompt -> attempt str) :
  let out := create_analysis hs s up tag desc user opens generate in
  (is_prefix (L "image/") (content_type up) = false ->
   out = (Raise (HTTPException 400 (L "File must be an image")), s))
  /\ (forall e,
        is_prefix (L "image/") (content_type up) = true ->
        analyze_diagram_io opens generate tag = Raise e ->
        fst out = Raise (HTTPException 500
                           (L "Analysis failed: " ++ str_of_raised hs e))
        /\ analysis_results (snd out) = analysis_results s
        /\ os_path_exists (files (snd out)) (upload_path up) = false
        /\ forall p, p <> upload_path up ->
             os_path_exists (files (snd out)) p = os_path_exists (files s) p).
Proof.
  cbn zeta. split; [apply create_analysis_refused|].
  intros e Hc He. unfold create_analysis. rewrite Hc, He. cbn [negb fst snd].
  fold (upload_path up). cbn [files analysis_results].
  repeat split.
  - rewrite exists_after_remove_if, str_eqb_refl. simpl. apply andb_false_r.
  - intros p Hp. rewrite exists_after_remove_if, exists_after_write.
    assert (E1 : str_eqb p (upload_path up) = false) by (apply str_eqb_neq; exact Hp).
    assert (E2 : str_eqb (upload_path up) p = false)
      by (apply str_eqb_neq; congruence).
    rewrite E1, E2. simpl. rewrite orb_false_r, andb_true_r. reflexivity.
Qed.

Lemma failed_creation_leaves_no_trace_witness :
  let out := create_analysis (fun _ d => d) (mk_server [] [L "uploads/id1.png"])
               (mk_upload (L "image/png") (L "a.png") (L ".png") (L "id1") (L "now"))
               PRR None (L "ann")
               (Raise (ExternalError (L "cannot identify image file")))
               (fun _ => Value (L "fine")) in
  fst out = Raise (HTTPException 500
                     (L "Analysis failed: cannot identify image file"))
  /\ analysis_results (snd out) = []
  /\ os_path_exists (files (snd out)) (L "uploads/id1.png") = false.
Proof.
  intros out.
  destruct (proj2 (failed_creation_leaves_no_trace (fun _ d => d)
                     (mk_server [] [L "uploads/id1.png"])
                     (mk_upload (L "image/png") (L "a.png") (L ".png") (L "id1") (L "now"))
                     PRR None (L "ann")
                     (Raise (ExternalError (L "cannot identify image file")))
                     (fun _ => Value (L "fine")))
                  (ExternalError (L "cannot identify image file"))
                  eq_refl eq_refl) as (H1 & H2 & H3 & _).
  split; [exact H1|]. split; [exact H2|exact H3].
Defined.

(** X16.  When the file is an image and the analysis succeeds,
    [create_analysis] answers with a record that carries the new
    identifier, the user and the analysis; from then on [get_analysis]
    hands that record to this user and refuses it to every other user,
    and the diagram and the result file exist. *)
Theorem created_analysis_can_be_fetched (hs : nat -> str -> str) (s : server)
    (up : upload) (tag : str) (desc : option str) (user : str)
    (opens : attempt unit) (generate : prompt -> attempt str) (res : analysis) :
  is_prefix (L "image/") (content_type up) = true ->
  analyze_diagram_io opens generate tag = Value res ->
  let out := create_analysis hs s up tag desc user opens generate in
  exists r,
    fst out = Value r
    /\ r = mk_AnalysisResult (new_id up) user tag (or_empty desc) (filename up)
             (upload_path up) res (timestamp up) (timestamp up)
    /\ get_analysis (snd out) (new_id up) user = Value r
    /\ (forall other, other <> user ->
          get_analysis (snd out) (new_id up) other
          = Raise (HTTPException 403 (L "Not authorized to access this analysis")))
    /\ os_path_exists (files (snd out)) (upload_path up) = true
    /\ os_path_exists (files (snd out)) (result_path (new_id up)) = true.
Proof.
  intros Hc Hres. cbn zeta. unfold create_analysis. rewrite Hc, Hres.
  cbn [negb fst snd]. fold (upload_path up).
  eexists. split; [reflexivity|]. split; [reflexivity|].
  unfold store_result, get_analysis.
  cbn [analysis_results files result_id user_id].
  rewrite dict_get_set_same. cbn [user_id]. repeat split.
  - rewrite str_eqb_refl. reflexivity.
  - intros other Hne.
    assert (E : str_eqb user other = false) by (apply str_eqb_neq; congruence).
    rewrite E. reflexivity.
  - rewrite !exists_after_write, str_eqb_refl. simpl.
    rewrite orb_true_r. reflexivity.
  - rewrite exists_after_write, str_eqb_refl. apply orb_true_r.
Qed.

Lemma created_analysis_can_be_fetched_witness :
  exists res r,
    fst (create_analysis (fun _ d => d) (mk_server [] [])
           (mk_upload (L "image/png") (L "a.png") (L ".png") (L "id1") (L "now"))
           PRR None (L "ann") (Value tt) (fun _ => Value (L "fine"))) = Value r
    /\ result r = res
    /\ get_analysis
         (snd (create_analysis (fun _ d => d) (mk_server [] [])
                 (mk_upload (L "image/png") (L "a.png") (L ".png") (L "id1") (L "now"))
                 PRR None (L "ann") (Value tt) (fun _ => Value (L "fine"))))
         (L "id1") (L "ann") = Value r.
Proof.
  destruct (analyze_diagram_io (Value tt) (fun _ : prompt => Value (L "fine")) PRR)
    as [res|e] eqn:E; [|vm_compute in E; discriminate E].
  destruct (@created_analysis_can_be_fetched (fun _ d => d) (mk_server [] [])
              (mk_upload (L "image/png") (L "a.png") (L ".png") (L "id1") (L "now"))
              PRR None (L "ann") (Value tt) (fun _ => Value (L "fine")) res
              eq_refl E) as (r & H1 & H2 & H3 & _).
  exists res, r. split; [exact H1|]. split; [rewrite H2; reflexivity|exact H3].
Defined.

(** ** Creating the three analyses at once *)

Lemma all_ids_differ (base : str) :
  base ++ L "_" ++ DESTRUCTIVE_TESTING <> base ++ L "_" ++ SYSTEM_ANALYSIS
  /\ base ++ L "_" ++ PRR <> base ++ L "_" ++ SYSTEM_ANALYSIS
  /\ base ++ L "_" ++ PRR <> base ++ L "_" ++ DESTRUCTIVE_TESTING.
Proof.
  repeat split; intros H; apply app_inv_head in H; vm_compute in H; discriminate H.
Qed.

(** X17.  The three analyses that [create_all_analysis] stores share the
    one uploaded diagram.  When the user deletes one of them the diagram
    is removed, while the two others stay and still name it as their
    file: here the system analysis is deleted and the destructive-testing
    analysis is left with a file that no longer exists. *)
Theorem deleting_one_of_three_removes_shared_diagram
    (hs : nat -> str -> str) (s : server) (up : upload) (desc : option str)
    (user : str) (opens : attempt unit) (generate : prompt -> attempt str)
    (results : dict analysis) :
  is_prefix (L "image/") (content_type up) = true ->
  analyze_diagram_all opens generate = Value results ->
  let s1 := snd (create_all_analysis hs s up desc user opens generate) in
  let id1 := new_id up ++ L "_" ++ SYSTEM_ANALYSIS in
  let id2 := new_id up ++ L "_" ++ DESTRUCTIVE_TESTING in
  let out := delete_analysis s1 id1 user in
  fst out = Value tt
  /\ exists r2,
       get_analysis (snd out) id2 user = Value r2
       /\ file_path r2 = upload_path up
       /\ os_path_exists (files (snd out)) (file_path r2) = false.
Proof.
  intros Hc Hres. cbn zeta.
  destruct (proj1 (analyze_diagram_all_cases opens generate) results Hres)
    as (_ & t1 & t2 & t3 & a1 & a2 & a3 & _ & _ & _ & _ & _ & _ & ->).
  destruct (all_ids_differ (new_id up)) as (H21 & H31 & H32).
  unfold create_all_analysis. rewrite Hc, Hres. cbn [negb fst snd].
  fold (upload_path up). unfold store_all. cbn [fold_left fst snd].
  unfold store_result. cbn [analysis_results files result_id].
  set (id1 := new_id up ++ L "_" ++ SYSTEM_ANALYSIS) in *.
  set (id2 := new_id up ++ L "_" ++ DESTRUCTIVE_TESTING) in *.
  set (id3 := new_id up ++ L "_" ++ PRR) in *.
  set (r1 := mk_AnalysisResult id1 user SYSTEM_ANALYSIS (or_empty desc)
               (filename up) (upload_path up) (mk_analysis t1 a1)
               (timestamp up) (timestamp up)).
  set (r2 := mk_AnalysisResult id2 user DESTRUCTIVE_TESTING (or_empty desc)
               (filename up) (upload_path up) (mk_analysis t2 a2)
               (timestamp up) (timestamp up)).
  set (r3 := mk_AnalysisResult id3 user PRR (or_empty desc)
               (filename up) (upload_path up) (mk_analysis t3 a3)
               (timestamp up) (timestamp up)).
  set (d3 := dict_set (dict_set (dict_set (analysis_results s) id1 r1) id2 r2)
               id3 r3).
  assert (G1 : dict_get d3 id1 = Some r1).
  { unfold d3. rewrite dict_get_set_other by congruence.
    rewrite dict_get_set_other by congruence. apply dict_get_set_same. }
  assert (G2 : dict_get d3 id2 = Some r2).
  { unfold d3. rewrite dict_get_set_other by congruence.
    apply dict_get_set_same. }
  unfold delete_analysis. cbn [analysis_results files]. rewrite G1.
  replace (user_id r1) with user by reflexivity. rewrite str_eqb_refl.
  cbn [negb fst snd]. split; [reflexivity|].
  exists r2. unfold get_analysis. cbn [analysis_results files].
  rewrite dict_get_del_other by congruence. rewrite G2.
  replace (user_id r2) with user by reflexivity. rewrite str_eqb_refl.
  cbn [negb]. split; [reflexivity|]. split; [reflexivity|].
  replace (file_path r2) with (upload_path up) by reflexivity.
  replace (file_path r1) with (upload_path up) by reflexivity.
  rewrite !exists_after_remove_if, str_eqb_refl. simpl.
  rewrite andb_false_r. reflexivity.
Qed.

Lemma deleting_one_of_three_removes_shared_diagram_witness :
  let up := mk_upload (L "image/png") (L "a.png") (L ".png") (L "id1") (L "now") in
  let s1 := snd (create_all_analysis (fun _ d => d) (mk_server [] []) up None
                   (L "ann") (Value tt) (fun _ => Value (L "fine"))) in
  exists r2,
    get_analysis (snd (delete_analysis s1 (L "id1_system_analysis") (L "ann")))
                 (L "id1_destructive_testing") (L "ann") = Value r2
    /\ os_path_exists
         (files (snd (delete_analysis s1 (L "id1_system_analysis") (L "ann"))))
         (file_path r2) = false.
Proof.
  intros up s1.
  destruct (analyze_diagram_all (Value tt) (fun _ : prompt => Value (L "fine")))
    as [results|e] eqn:E; [|vm_compute in E; discriminate E].
  destruct (@deleting_one_of_three_removes_shared_diagram (fun _ d => d)
              (mk_server [] []) up None (L "ann") (Value tt)
              (fun _ => Value (L "fine")) results eq_refl E)
    as (_ & r2 & H1 & _ & H3).
  exists r2. split; [exact H1|exact H3].
Defined.

(** X18.  [create_all_analysis] stores all three analyses or none: when
    the image does not open or one remote call fails, the answer is 500,
    the dictionary of results is as before and the uploaded diagram is
    removed again. *)
Theorem create_all_stores_nothing_on_failure
    (hs : nat -> str -> str) (s : server) (up : upload) (desc : option str)
    (user : str) (opens : attempt unit) (generate : prompt -> attempt str) :
  is_prefix (L "image/") (content_type up) = true ->
  (exists r, opens = Raise r) \/ (exists p r, generate p = Raise r) ->
  let out := create_all_analysis hs s up desc user opens generate in
  (exists detail, fst out = Raise (HTTPException 500 detail))
  /\ analysis_results (snd out) = analysis_results s
  /\ os_path_exists (files (snd out)) (upload_path up) = false.
Proof.
  intros Hc Hfail. cbn zeta. unfold create_all_analysis. rewrite Hc.
  cbn [negb]. fold (upload_path up).
  destruct (analyze_diagram_all opens generate) as [results|e] eqn:E.
  - exfalso.
    destruct (proj1 (analyze_diagram_all_cases opens generate) results E)
      as (Ho & t1 & t2 & t3 & _ & _ & _ & H1 & H2 & H3 & _).
    destruct Hfail as [[r Hr]|(p & r & Hr)]; [congruence|].
    destruct p; congruence.
  - cbn [fst snd analysis_results files]. split; [eauto|]. split; [reflexivity|].
    rewrite exists_after_remove_if, str_eqb_refl. simpl. apply andb_false_r.
Qed.

Lemma create_all_stores_nothing_on_failure_witness :
  let generate := fun p => match p with
                           | PRR_PROMPT => Raise (ExternalError (L "quota"))
                           | _ => Value (L "fine")
                           end in
  let out := create_all_analysis (fun _ d => d) (mk_server [] [])
               (mk_upload (L "image/png") (L "a.png") (L ".png") (L "id1") (L "now"))
               None (L "ann") (Value tt) generate in
  (exists detail, fst out = Raise (HTTPException 500 detail))
  /\ analysis_results (snd out) = []
  /\ os_path_exists (files (snd out)) (L "uploads/id1.png") = false.
Proof.
  intros generate.
  apply (@create_all_stores_nothing_on_failure (fun _ d => d) (mk_server [] [])
           (mk_upload (L "image/png") (L "a.png") (L ".png") (L "id1") (L "now"))
           None (L "ann") (Value tt) generate eq_refl).
  right. exists PRR_PROMPT, (ExternalError (L "quota")). reflexivity.
Defined.

(** ** [mcp_server.py] *)

Lemma mcp_analysis_type_cases (tag : str) :
  match schema_of tag with
  | Some _ => mcp_analysis_type tag = Value tag
  | None => mcp_analysis_type tag
            = Raise (HTTPException 400 (L "Invalid analysis type: " ++ tag))
  end.
Proof.
  unfold schema_of, mcp_analysis_type.
  change (L "system_analysis") with SYSTEM_ANALYSIS.
  change (L "destructive_testing") with DESTRUCTIVE_TESTING.
  change (L "prr") with PRR.
  destruct (str_eqb tag SYSTEM_ANALYSIS) eqn:E1;
    [apply str_eqb_eq in E1; subst; reflexivity|].
  destruct (str_eqb tag DESTRUCTIVE_TESTING) eqn:E2;
    [apply str_eqb_eq in E2; subst; reflexivity|].
  destruct (str_eqb tag PRR) eqn:E3;
    [apply str_eqb_eq in E3; subst; reflexivity|reflexivity].
Qed.

(** X19.  [analyze_architecture] answers every failure with the status
    500.  In particular the status 400 that it raises for an invalid
    analysis type never reaches the caller: it is raised inside [try],
    caught, and answered as 500 with the text of the exception. *)
Theorem mcp_answers_every_failure_with_500 (hs : nat -> str -> str)
    (fs : list str) (decoded : attempt unit) (temp_file_path tag : str)
    (opens : attempt unit) (generate : prompt -> attempt str) :
  let out := analyze_architecture hs fs decoded temp_file_path tag opens generate in
  (forall r, fst out = Raise r -> exists detail, r = HTTPException 500 detail)
  /\ (decoded = Value tt -> schema_of tag = None ->
      fst out
      = Raise (HTTPException 500
                 (L "Analysis failed: "
                    ++ hs 400 (L "Invalid analysis type: " ++ tag)))).
Proof.
  cbn zeta. split.
  - intros r. unfold analyze_architecture.
    destruct decoded as [u|e]; cbn [fst snd].
    + destruct (mcp_analysis_type tag) as [chosen|e]; cbn [fst snd].
      * destruct (analyze_diagram_io opens generate chosen); cbn [fst snd];
          intros H; inversion H; eauto.
      * intros H. inversion H. eauto.
    + intros H. inversion H. eauto.
  - intros -> Hs. unfold analyze_architecture.
    pose proof (mcp_analysis_type_cases tag) as Ht. rewrite Hs in Ht.
    rewrite Ht. reflexivity.
Qed.

Lemma mcp_answers_every_failure_with_500_witness :
  fst (analyze_architecture (fun _ d => d) [] (Value tt) (L "/tmp/x.png")
         (L "security_review") (Value tt) (fun _ => Value (L "fine")))
  = Raise (HTTPException 500
             (L "Analysis failed: Invalid analysis type: security_review")).
Proof.
  apply (proj2 (mcp_answers_every_failure_with_500 (fun _ d => d) []
                  (Value tt) (L "/tmp/x.png") (L "security_review")
                  (Value tt) (fun _ => Value (L "fine")))).
  - reflexivity.
  - reflexivity.
Defined.

(** X20.  The temporary file of [analyze_architecture] is removed only
    when the analysis succeeds.  When the type is invalid or the analysis
    fails after the diagram has been decoded, the file stays behind. *)
Theorem mcp_leaves_temp_file_on_failure (hs : nat -> str -> str)
    (fs : list str) (temp_file_path tag : str)
    (opens : attempt unit) (generate : prompt -> attempt str) :
  let out := analyze_architecture hs fs (Value tt) temp_file_path tag
               opens generate in
  (forall res, fst out = Value res ->
               os_path_exists (snd out) temp_file_path = false)
  /\ (forall r, fst out = Raise r ->
                os_path_exists (snd out) temp_file_path = true).
Proof.
  cbn zeta. unfold analyze_architecture.
  destruct (mcp_analysis_type tag) as [chosen|e]; cbn [fst snd].
  - destruct (analyze_diagram_io opens generate chosen); cbn [fst snd].
    + split; [|discriminate]. intros _ _.
      rewrite exists_after_remove, str_eqb_refl. apply andb_false_r.
    + split; [discriminate|]. intros _ _.
      rewrite exists_after_write, str_eqb_refl. apply orb_true_r.
  - split; [discriminate|]. intros _ _.
    rewrite exists_after_write, str_eqb_refl. apply orb_true_r.
Qed.

Lemma mcp_leaves_temp_file_on_failure_witness :
  os_path_exists
    (snd (analyze_architecture (fun _ d => d) [] (Value tt) (L "/tmp/x.png")
            (L "prr") (Value tt)
            (fun _ => Raise (ExternalError (L "quota")))))
    (L "/tmp/x.png") = true.
Proof.
  apply (proj2 (mcp_leaves_temp_file_on_failure (fun _ d => d) []
                  (L "/tmp/x.png") (L "prr") (Value tt)
                  (fun _ => Raise (ExternalError (L "quota"))))
               (HTTPException 500 (L "Analysis failed: quota"))).
  vm_compute. reflexivity.
Defined.

(** ** [routers/users.py] *)

(** X21.  Registering a name that is free stores the user, enabled and
    with the hash of the password, so that [read_user] answers with the
    same name, mail and full name, the other users being untouched.
    Registering a name that is taken is refused with 400 and the first
    registration stays as it was. *)
Theorem registration_round_trip (get_password_hash : str -> str)
    (db : dict user_data) (name mail full password : str) :
  let out := create_user get_password_hash db name mail full password in
  (dict_get db name = None ->
   fst out = Value (name, mail, full)
   /\ read_user (snd out) name = Value (name, mail, full)
   /\ dict_get (snd out) name
      = Some (mk_user_data name mail full (get_password_hash password) false)
   /\ forall other, other <> name ->
        read_user (snd out) other = read_user db other)
  /\ (dict_get db name <> None ->
      out = (Raise (HTTPException 400 (L "Username already registered")), db)).
Proof.
  cbn zeta. unfold create_user. destruct (dict_get db name) as [u|] eqn:G.
  - split; [discriminate|]. intros _. reflexivity.
  - split; [|congruence]. intros _. cbn [fst snd]. unfold read_user.
    rewrite dict_get_set_same. repeat split.
    intros other Hne. rewrite dict_get_set_other by exact Hne. reflexivity.
Qed.

Lemma registration_round_trip_witness :
  read_user (snd (create_user (fun p => L "hash:" ++ p) []
                    (L "ann") (L "ann@example.org") (L "Ann Lee") (L "secret")))
            (L "ann")
  = Value (L "ann", L "ann@example.org", L "Ann Lee").
Proof.
  apply (proj1 (registration_round_trip (fun p => L "hash:" ++ p) []
                  (L "ann") (L "ann@example.org") (L "Ann Lee") (L "secret"))).
  reflexivity.
Defined.

Lemma dict_del_length {V} (d : dict V) (k : str) :
  dict_get d k <> None -> length (dict_del d k) + 1 = length d.
Proof.
  induction d as [|[k0 v0] d IH]; simpl; [congruence|].
  destruct (str_eqb k k0); [lia|]. intros H. simpl. rewrite <- (IH H). lia.
Qed.

(** X22.  Deleting a user that exists, in a database without a repeated
    name, makes [read_user] answer 404 for that name and leaves the other
    users as they were; the list of users is one shorter and the name can
    be registered again. *)
Theorem deleted_user_is_gone (get_password_hash : str -> str)
    (db : dict user_data) (name : str) :
  NoDup (keys db) -> dict_get db name <> None ->
  let out := delete_user db name in
  fst out = Value tt
  /\ read_user (snd out) name = Raise (HTTPException 404 (L "User not found"))
  /\ (forall other, other <> name ->
        read_user (snd out) other = read_user db other)
  /\ length (read_users (snd out)) + 1 = length (read_users db)
  /\ forall mail full password,
       fst (create_user get_password_hash (snd out) name mail full password)
       = Value (name, mail, full).
Proof.
  intros Hnd Hin. cbn zeta. unfold delete_user.
  destruct (dict_get db name) as [u|] eqn:G; [|congruence].
  cbn [fst snd]. split; [reflexivity|]. unfold read_user, read_users, create_user.
  rewrite dict_get_del_same by exact Hnd. split; [reflexivity|]. split.
  - intros other Hne. rewrite dict_get_del_other by exact Hne. reflexivity.
  - split; [|reflexivity]. rewrite !length_map.
    apply dict_del_length. congruence.
Qed.

Lemma deleted_user_is_gone_witness :
  let db := [(L "ann", mk_user_data (L "ann") (L "a@x.org") (L "Ann") (L "h") false);
             (L "bob", mk_user_data (L "bob") (L "b@x.org") (L "Bob") (L "g") false)] in
  read_user (snd (delete_user db (L "ann"))) (L "ann")
  = Raise (HTTPException 404 (L "User not found")).
Proof.
  intros db.
  apply (@deleted_user_is_gone (fun p => p) db (L "ann")).
  - apply nodupb_sound. reflexivity.
  - discriminate.
Defined.
